(** * mktestdocs: fenced code blocks of a document and their executors

    A shallow embedding of [src/mktestdocs/__main__.py]: the regular
    expressions of the module and the backtracking matcher that runs them,
    the [Fence] record with its header sub-parsers, the executor registry
    and the check entry points, followed by the properties of the
    specification that were checked against them. *)

From Stdlib Require Import Ascii String.
From stdpp Require Import base list strings gmap sorting.


(** ** Text

    A Python [str] is a [string], and the matcher indexes it as a list of
    characters.  The characters are the 8-bit ones of [ascii], read as the
    code points below 256, and the classes of characters ([\w], the spaces
    of [str.strip], the line breaks of [str.splitlines]) are Python's on
    these code points. *)

Definition chars (s : string) : list ascii := String.list_ascii_of_string s.
Definition text (l : list ascii) : string := String.string_of_list_ascii l.

(** [s[a:b]] for [0 <= a], [0 <= b]. *)
Definition slice {A} (a b : nat) (l : list A) : list A := take (b - a) (drop a l).
Definition substr (s : string) (a b : nat) : string := text (slice a b (chars s)).

(** ** Regular expressions: the fragment of Python's [re] the module uses *)

Module Re.

Inductive regex : Type :=
| Empty
| Char (p : ascii -> bool)
| Cat (r1 r2 : regex)
| Alt (r1 r2 : regex)
| Repeat (greedy : bool) (lo : nat) (r : regex)
| Group (n : nat) (r : regex)
| Backref (n : nat)
| Bol
| Eol
| WordBoundary
| LookBehind (p : ascii -> bool).

(** Spans of the capture groups that took part in the match so far. *)
Definition caps : Type := nat -> option (nat * nat).

Definition no_caps : caps := fun _ => None.

Definition set_cap (n : nat) (sp : nat * nat) (c : caps) : caps :=
  fun m => if decide (m = n) then Some sp else c m.

Definition cont : Type := nat -> caps -> option (nat * caps).

(** Character classes. *)
Definition eqc (c : ascii) : ascii -> bool := fun a => bool_decide (a = c).
Definition between (lo hi : ascii) : ascii -> bool :=
  fun a => (nat_of_ascii lo <=? nat_of_ascii a) && (nat_of_ascii a <=? nat_of_ascii hi).
Definition any : ascii -> bool := fun _ => true.
Definition alpha : ascii -> bool := fun a => between "a" "z" a || between "A" "Z" a.
Definition digit : ascii -> bool := between "0" "9".
(** [\w] of a [str] pattern, on the characters below 256: the ASCII letters
    and digits, [_], and the letters and numeric characters of Latin-1. *)
Definition latin1_alnum : ascii -> bool :=
  fun a => eqc "170" a || between "178" "179" a || eqc "181" a ||
           between "185" "186" a || between "188" "190" a ||
           between "192" "214" a || between "216" "246" a || between "248" "255" a.
Definition word : ascii -> bool :=
  fun a => alpha a || digit a || eqc "_" a || latin1_alnum a.

Definition char_before (s : list ascii) (i : nat) : option ascii :=
  match i with 0 => None | S j => s !! j end.

Definition holds (p : ascii -> bool) (o : option ascii) : bool :=
  match o with Some a => p a | None => false end.

(** [^] and [$] under [re.MULTILINE], [\b]. *)
Definition at_bol (s : list ascii) (i : nat) : bool :=
  match char_before s i with None => true | Some a => eqc "010" a end.
Definition at_eol (s : list ascii) (i : nat) : bool :=
  match s !! i with None => true | Some a => eqc "010" a end.
Definition at_word_boundary (s : list ascii) (i : nat) : bool :=
  xorb (holds word (char_before s i)) (holds word (s !! i)).

Definition orelse {A} (x : option A) (y : option A) : option A :=
  match x with Some _ => x | None => y end.

(** The loop of a repeat [r{lo,}] (greedy) or [r{lo,}?] (lazy): [body] runs
    one round of [r], [k] is what follows the repeat, [count] rounds are
    done, and [last] is where the previous round started.  Below [lo]
    rounds the body must run; from there on, a greedy repeat prefers one
    more round and a lazy one prefers to go on with [k].  Past [lo] rounds a
    further round is tried only when the previous one moved (the engine's
    guard against zero-width rounds), so the loop is entered at most
    [lo + (length s - i) + 2] times, which is the [fuel] that [rmatch]
    gives it. *)
Fixpoint repeat_loop (body : nat -> caps -> cont -> option (nat * caps))
  (greedy : bool) (lo : nat) (k : cont)
  (fuel count : nat) (last : option nat) (i : nat) (c : caps)
  {struct fuel} : option (nat * caps) :=
  match fuel with
  | 0 => None
  | S fuel' =>
      let again (_ : unit) :=
        body i c (fun j c' => repeat_loop body greedy lo k fuel' (S count) (Some i) j c') in
      if count <? lo then again ()
      else
        let more (_ : unit) :=
          if decide (last = Some i) then None else again () in
        if greedy then orelse (more ()) (k i c)
        else orelse (k i c) (more ())
  end.

(** The matcher, in continuation-passing style: [k] is the rest of the
    pattern, and a [None] from it makes the matcher try its next choice,
    which is the engine's backtracking. *)
Fixpoint rmatch (s : list ascii) (r : regex) (i : nat) (c : caps) (k : cont)
  {struct r} : option (nat * caps) :=
  match r with
  | Empty => k i c
  | Char p =>
      match s !! i with
      | Some a => if p a then k (S i) c else None
      | None => None
      end
  | Cat r1 r2 => rmatch s r1 i c (fun j c' => rmatch s r2 j c' k)
  | Alt r1 r2 => orelse (rmatch s r1 i c k) (rmatch s r2 i c k)
  | Repeat greedy lo r' =>
      repeat_loop (rmatch s r') greedy lo k (lo + (length s - i) + 2) 0 None i c
  | Group n r' => rmatch s r' i c (fun j c' => k j (set_cap n (i, j) c'))
  | Backref n =>
      match c n with
      | Some (a, b) =>
          if decide (slice i (i + (b - a)) s = slice a b s ∧ i + (b - a) ≤ length s)
          then k (i + (b - a)) c else None
      | None => None
      end
  | Bol => if at_bol s i then k i c else None
  | Eol => if at_eol s i then k i c else None
  | WordBoundary => if at_word_boundary s i then k i c else None
  | LookBehind p => if holds p (char_before s i) then k i c else None
  end.

(** A match object: where the match starts and ends, and its groups. *)
Record match_obj : Type := MatchObj {
  m_start : nat;
  m_end : nat;
  m_caps : caps
}.

Definition match_at (r : regex) (s : list ascii) (i : nat) : option match_obj :=
  match rmatch s r i no_caps (fun j c => Some (j, c)) with
  | Some (j, c) => Some (MatchObj i j c)
  | None => None
  end.

(** [pattern.match(s)]: a match is tried at position 0 only. *)
Definition re_match (r : regex) (s : string) : option match_obj :=
  match_at r (chars s) 0.

(** The scan of [pattern.findall(s)]: a match is tried at each position from
    the left, up to the end of the text; after a match the scan resumes at
    its end, or one character further when the match is empty.  The
    position grows at each step, so [length s + 2] steps are enough. *)
Fixpoint scan (fuel : nat) (r : regex) (s : list ascii) (i : nat) : list match_obj :=
  match fuel with
  | 0 => []
  | S fuel' =>
      if decide (length s < i) then []
      else
        match match_at r s i with
        | Some m =>
            m :: scan fuel' r s (if decide (m_end m = i) then S i else m_end m)
        | None => scan fuel' r s (S i)
        end
  end.

Definition finditer (r : regex) (s : string) : list match_obj :=
  scan (String.length s + 2) r (chars s) 0.

(** Group [n] of a match as text, when it took part. *)
Definition group (s : string) (m : match_obj) (n : nat) : option string :=
  match m_caps m n with
  | Some (a, b) => Some (substr s a b)
  | None => None
  end.

(** [m.groups()] for a pattern with [n] groups: [None] for a group that took
    no part. *)
Definition groups (n : nat) (s : string) (m : match_obj) : list (option string) :=
  map (fun g => group s m (S g)) (seq 0 n).

(** One item of [findall] for a pattern with [n >= 2] groups: the tuple of
    groups, with the empty string for a group that took no part. *)
Definition findall_item (n : nat) (s : string) (m : match_obj) : list (option string) :=
  map (fun g => Some (default ""%string g)) (groups n s m).

Definition findall (n : nat) (r : regex) (s : string) : list (list (option string)) :=
  map (findall_item n s) (finditer r s).

(** Derived forms. *)
Definition Star (r : regex) : regex := Repeat true 0 r.
Definition LazyStar (r : regex) : regex := Repeat false 0 r.
Definition Opt (r : regex) : regex := Alt r Empty.
Definition Lit (c : ascii) : regex := Char (eqc c).

(** *** What a pattern can match

    [Matches s r i c j c'] says that [r] can match [s] from position [i] to
    position [j], taking the groups from [c] to [c']: the choices the
    matcher explores, without their order.  [Derives moving s r] is that
    relation, where every round of a repeat takes at least one character
    when [moving] is set. *)
Inductive Iter (moving : bool) (R : nat -> caps -> nat -> caps -> Prop)
  : nat -> nat -> caps -> nat -> caps -> Prop :=
| Iter_stop i c : Iter moving R 0 i c i c
| Iter_more lo i c j c' j' c'' :
    (moving = true -> i < j) ->
    R i c j c' -> Iter moving R (pred lo) j c' j' c'' -> Iter moving R lo i c j' c''.

Fixpoint Derives (moving : bool) (s : list ascii) (r : regex)
  (i : nat) (c : caps) (j : nat) (c' : caps) {struct r} : Prop :=
  match r with
  | Empty => j = i ∧ c' = c
  | Char p => ∃ a, s !! i = Some a ∧ p a = true ∧ j = S i ∧ c' = c
  | Cat r1 r2 => ∃ m cm, Derives moving s r1 i c m cm ∧ Derives moving s r2 m cm j c'
  | Alt r1 r2 => Derives moving s r1 i c j c' ∨ Derives moving s r2 i c j c'
  | Repeat _ lo r' => Iter moving (Derives moving s r') lo i c j c'
  | Group n r' => ∃ c0, Derives moving s r' i c j c0 ∧ c' = set_cap n (i, j) c0
  | Backref n =>
      ∃ a b, c n = Some (a, b) ∧ slice i (i + (b - a)) s = slice a b s ∧
             i + (b - a) ≤ length s ∧ j = i + (b - a) ∧ c' = c
  | Bol => at_bol s i = true ∧ j = i ∧ c' = c
  | Eol => at_eol s i = true ∧ j = i ∧ c' = c
  | WordBoundary => at_word_boundary s i = true ∧ j = i ∧ c' = c
  | LookBehind p => holds p (char_before s i) = true ∧ j = i ∧ c' = c
  end.

Abbreviation Matches := (Derives false).

(** The groups a pattern can set. *)
Fixpoint groups_of (r : regex) : list nat :=
  match r with
  | Cat r1 r2 | Alt r1 r2 => groups_of r1 ++ groups_of r2
  | Repeat _ _ r' => groups_of r'
  | Group n r' => n :: groups_of r'
  | _ => []
  end.

End Re.

Import Re.

Declare Scope regex_scope.
Delimit Scope regex_scope with re.
Bind Scope regex_scope with regex.
Infix ">>" := Cat (at level 41, right associativity) : regex_scope.
Infix "//" := Alt (at level 42, right associativity) : regex_scope.

(** ** The patterns of the module *)

(** [[ \t]], [[a-zA-Z0-9_\-]], [[a-zA-Z0-9_]], [[^\}\n]], [[\w#.+-]]. *)
Definition blank (a : ascii) : bool := eqc " " a || eqc "009" a.
Definition name_char (a : ascii) : bool := alpha a || digit a || eqc "_" a || eqc "-" a.
Definition key_char (a : ascii) : bool := alpha a || digit a || eqc "_" a.
Definition attrs_char (a : ascii) : bool := negb (eqc "}" a || eqc "010" a).
Definition lang_char (a : ascii) : bool :=
  word a || eqc "#" a || eqc "." a || eqc "+" a || eqc "-" a.
Definition quote_char (a : ascii) : bool := eqc "034" a || eqc "'" a.

(** [CLASS_RE]; group 1 is [class]. *)
Definition CLASS_RE : regex :=
  (Star (Char blank) >>
   Lit "." >>
   Group 1 (Char alpha >> Star (Char name_char)) >>
   Star (Char blank))%re.

(** [ID_RE]; group 1 is [id]. *)
Definition ID_RE : regex :=
  (Star (Char blank) >>
   Lit "#" >>
   Group 1 (Char alpha >> Star (Char name_char)) >>
   Star (Char blank))%re.

(** [KEY_VAL_RE]; groups: 1 [key], 2 [quot], 3 [value]. *)
Definition KEY_VAL_RE : regex :=
  (Star (Char blank) >>
   Group 1 (WordBoundary >> Char alpha >> Star (Char key_char)) >>
   Opt (Lit "=" >>
        Group 2 (Char quote_char) >>
        Group 3 (LazyStar (Char any)) >>
        Backref 2) >>
   Star (Char blank))%re.

(** [FENCED_BLOCK_RE], in three parts; groups: 1 [raw], 2 [fence], 3 the
    header, 4 the braces, 5 [attrs], 6 the language part, 7 [lang],
    8 [options], 9 [quot], 10 [code]. *)

(** Line 62: [(?P<fence>^(?:~{3,}|`{3,}))]. *)
Definition OPENING_FENCE : regex :=
  Group 2 (Bol >> (Repeat true 3 (Lit "~") // Repeat true 3 (Lit "`")))%re.

(** Lines 63 to 80: the braces with [attrs], or else the language and the
    options. *)
Definition HEADER : regex :=
  Group 3
    (Group 4 (Lit "{" >> Group 5 (Star (Char attrs_char)) >> Lit "}")
     //
     Opt (Group 6 (Opt (Lit ".") >> Group 7 (Star (Char lang_char)) >> Star (Lit " "))) >>
     Group 8
       (Star
          ((WordBoundary >> Char alpha >> Star (Char key_char) >>
            Opt (Lit "=" >>
                 Group 9 (Char quote_char) >>
                 LazyStar (Char any) >>
                 Backref 9) >>
            Star (Char blank))
           // Empty)))%re.

Definition FENCED_BLOCK_RE : regex :=
  Group 1
    (OPENING_FENCE >>
     Star (Lit " ") >>
     HEADER >>
     Lit "010" >>
     Group 10 (LazyStar (Char any)) >>
     LookBehind (eqc "010") >>
     Backref 2 >>
     Star (Lit " ") >>
     Eol)%re.

(** ** Python values the module handles *)

(** Exceptions, by class, with their message. *)
Inductive exn : Type :=
| LookupError (msg : string)
| AttributeError (msg : string)
| TypeError (msg : string)
| IndexError (msg : string)
| FileNotFoundError (msg : string)
| OSError (msg : string)
| AssertionError (msg : string)
| CalledProcessError (msg : string)
| Raised (cls msg : string).

Inductive result (A : Type) : Type :=
| Ok (a : A)
| Raise (e : exn).
Arguments Ok {A} a.
Arguments Raise {A} e.

Definition bind {A B} (x : result A) (f : A -> result B) : result B :=
  match x with Ok a => f a | Raise e => Raise e end.

Notation "x <- e ;; k" := (bind e (fun x => k))
  (at level 100, e at next level, right associativity, only parsing).

(** Truth of an [Optional[str]], and [x or y] on two of them. *)
Definition truthy (x : option string) : bool :=
  match x with Some s => negb (bool_decide (s = ""%string)) | None => false end.

Definition py_or (x y : option string) : option string :=
  if truthy x then x else y.

(** A [dict] and an [OrderedDict] with [str] keys both keep their keys in the
    order of first insertion: [d[k] = v] replaces the value of a key that is
    present, where it stands, and adds an absent key at the end. *)
Definition odict (V : Type) : Type := list (string * V).

Fixpoint od_set {V} (k : string) (v : V) (d : odict V) : odict V :=
  match d with
  | [] => [(k, v)]
  | (k', v') :: d' =>
      if decide (k' = k) then (k, v) :: d' else (k', v') :: od_set k v d'
  end.

Fixpoint od_get {V} (k : string) (d : odict V) : option V :=
  match d with
  | [] => None
  | (k', v') :: d' => if decide (k' = k) then Some v' else od_get k d'
  end.

Definition od_keys {V} (d : odict V) : list string := map fst d.

(** [raw[n:]]. *)
Definition str_drop (n : nat) (s : string) : string := text (drop n (chars s)).

(** ** [textwrap.dedent] of the standard library

    Lines that hold only spaces and tabs become empty, and the longest run
    of spaces and tabs that starts every other line is removed from each of
    them. *)

Fixpoint split_lines (l : list ascii) : list (list ascii) :=
  match l with
  | [] => [[]]
  | a :: l' =>
      if eqc "010" a then [] :: split_lines l'
      else match split_lines l' with
           | [] => [[a]]
           | ln :: lns => (a :: ln) :: lns
           end
  end.

Fixpoint join_lines (lns : list (list ascii)) : list ascii :=
  match lns with
  | [] => []
  | [ln] => ln
  | ln :: lns' => ln ++ "010"%char :: join_lines lns'
  end.

Fixpoint indent_of (ln : list ascii) : list ascii :=
  match ln with
  | a :: ln' => if blank a then a :: indent_of ln' else []
  | [] => []
  end.

Definition blank_line (ln : list ascii) : bool := forallb blank ln.

Fixpoint common_prefix (x y : list ascii) : list ascii :=
  match x, y with
  | a :: x', b :: y' => if decide (a = b) then a :: common_prefix x' y' else []
  | _, _ => []
  end.

Definition margin_of (lns : list (list ascii)) : list ascii :=
  match map indent_of (filter (fun ln => blank_line ln = false) lns) with
  | [] => []
  | m :: ms => fold_left common_prefix ms m
  end.

Definition dedent (t : string) : string :=
  let lns := map (fun ln => if blank_line ln then [] else ln) (split_lines (chars t)) in
  let margin := margin_of lns in
  text (join_lines (map (fun ln => if blank_line ln then ln else drop (length margin) ln) lns)).

(** ** [Attr] and [Fence] *)

Record Attr : Type := mkAttr {
  value : option string;
  type : string
}.

Record Fence : Type := mkFence {
  fence : option string;
  lang : option string;
  attrs : option (odict Attr);
  options : option (odict (option string));
  contents : string;
  raw : option string
}.

(** [Fence()]: the defaults of the fields. *)
Definition Fence_default : Fence :=
  mkFence (Some ""%string) None None None ""%string None.

(** The loop of [Fence.options_from_str]; a match of [KEY_VAL_RE] takes at
    least one character, so [length raw] rounds are enough. *)
Fixpoint options_loop (fuel : nat) (raw : string) (options : odict (option string))
  : odict (option string) :=
  match fuel with
  | 0 => options
  | S fuel' =>
      if decide (raw = ""%string) then options
      else
        match re_match KEY_VAL_RE raw with
        | None => options
        | Some m =>
            match group raw m 1 with
            | Some key =>
                options_loop fuel' (str_drop (m_end m) raw) (od_set key (group raw m 3) options)
            | None => options
            end
        end
  end.

Definition options_from_str (raw : option string) : odict (option string) :=
  match raw with
  | Some raw => options_loop (String.length raw) raw []
  | None => []
  end.

(** One round of the loop of [Fence.attrs_from_str]: the token that starts
    [raw], and where it ends. *)
Definition attr_token (raw : string) : option (string * Attr * nat) :=
  match re_match CLASS_RE raw with
  | Some m =>
      match group raw m 1 with
      | Some name => Some (name, mkAttr None "class", m_end m)
      | None => None
      end
  | None =>
      match re_match ID_RE raw with
      | Some m =>
          match group raw m 1 with
          | Some name => Some (name, mkAttr None "id", m_end m)
          | None => None
          end
      | None =>
          match re_match KEY_VAL_RE raw with
          | Some m =>
              match group raw m 1 with
              | Some name => Some (name, mkAttr (group raw m 3) "keyval", m_end m)
              | None => None
              end
          | None => None
          end
      end
  end.

Fixpoint attrs_loop (fuel : nat) (raw : string) (attrs : odict Attr) : odict Attr :=
  match fuel with
  | 0 => attrs
  | S fuel' =>
      if decide (raw = ""%string) then attrs
      else
        match attr_token raw with
        | Some (name, a, e) => attrs_loop fuel' (str_drop e raw) (od_set name a attrs)
        | None => attrs
        end
  end.

Definition attrs_from_str (raw : option string) : odict Attr :=
  match raw with
  | Some raw => attrs_loop (String.length raw) raw []
  | None => []
  end.

(** [groups[i]] of a tuple. *)
Definition item (groups : list (option string)) (i : nat) : result (option string) :=
  match groups !! i with
  | Some g => Ok g
  | None => Raise (IndexError "tuple index out of range")
  end.

Definition dedent_arg (x : option string) : result string :=
  match x with
  | Some s => Ok (dedent s)
  | None => Raise (TypeError "expected string or bytes-like object, got 'NoneType'")
  end.

Definition from_re_groups (groups : list (option string)) : result Fence :=
  g4 <- item groups 4 ;;
  let attrs := attrs_from_str g4 in
  let _lang :=
    match attrs with
    | (name, a) :: _ => if decide (type a = "class"%string) then Some name else None
    | [] => None
    end in
  g6 <- item groups 6 ;;
  let lang := py_or g6 _lang in
  g1 <- item groups 1 ;;
  g7 <- item groups 7 ;;
  g9 <- item groups 9 ;;
  contents <- dedent_arg g9 ;;
  g0 <- item groups 0 ;;
  Ok (mkFence g1 lang (Some attrs) (Some (options_from_str g7)) contents g0).

Definition from_str (raw : string) : result Fence :=
  match re_match FENCED_BLOCK_RE raw with
  | Some m => from_re_groups (groups 10 raw m)
  | None => Raise (AttributeError "'NoneType' object has no attribute 'groups'")
  end.

(** A list comprehension over calls that may raise. *)
Fixpoint collect {A B} (f : A -> result B) (l : list A) : result (list B) :=
  match l with
  | [] => Ok []
  | a :: l' => b <- f a ;; bs <- collect f l' ;; Ok (b :: bs)
  end.

Definition grab_fences (source : string) : result (list Fence) :=
  collect from_re_groups (findall 10 FENCED_BLOCK_RE source).

(** [grab_code_blocks(docstring, **kwargs)], as the module leaves it. *)
Definition grab_code_blocks (docstring : string) (kwargs : odict (option string))
  : result (list Fence) :=
  grab_fences docstring.

(** ** [str.split], [str.splitlines] and [str.strip], for [exec_bash_fence] *)

Definition cons_head {A} (a : A) (ps : list (list A)) : list (list A) :=
  match ps with
  | p :: ps' => (a :: p) :: ps'
  | [] => [[a]]
  end.

(** [s.split("$ ")]. *)
Fixpoint split_prompt (l : list ascii) : list (list ascii) :=
  match l with
  | [] => [[]]
  | a :: l' =>
      match l' with
      | b :: l'' =>
          if eqc "$" a && eqc " " b then [] :: split_prompt l''
          else cons_head a (split_prompt l')
      | [] => [[a]]
      end
  end.

(** Line boundaries of [str.splitlines] among the 8-bit characters. *)
Definition line_break (a : ascii) : bool :=
  eqc "010" a || eqc "011" a || eqc "012" a || eqc "013" a ||
  eqc "028" a || eqc "029" a || eqc "030" a || eqc "133" a.

(** [s.splitlines()]: a line break ends a line, [\r\n] counts as one, and
    no empty line follows the last break. *)
Fixpoint splitlines (l : list ascii) : list (list ascii) :=
  match l with
  | [] => []
  | a :: l' =>
      if line_break a then
        [] :: (match l' with
               | b :: l'' => if eqc "013" a && eqc "010" b then splitlines l'' else splitlines l'
               | [] => []
               end)
      else
        match l' with
        | [] => [[a]]
        | _ :: _ => cons_head a (splitlines l')
        end
  end.

(** Whitespace of [str.strip] among the 8-bit characters. *)
Definition py_space (a : ascii) : bool :=
  between "009" "013" a || between "028" "032" a || eqc "133" a || eqc "160" a.

Fixpoint lstrip (l : list ascii) : list ascii :=
  match l with
  | a :: l' => if py_space a then lstrip l' else l
  | [] => []
  end.

Definition strip (l : list ascii) : list ascii := rev (lstrip (rev (lstrip l))).

(** ** The module's state and its executors *)

(** Values bound in a namespace of executed code. *)
Inductive pyval : Type :=
| PyInt (n : Z)
| PyStr (s : string)
| PyNone.

(** What an executor is called with: the check entry points pass a [Fence]
    or, in [check_raw_file_full], a [str]. *)
Inductive pyobj : Type :=
| VFence (f : Fence)
| VStr (s : string).

(** The functions that the module registers. *)
Inductive executor : Type :=
| ExecBash
| ExecPython
| ExecFileFence
| ExecPythonFence
| ExecBashFence.

(** The state the module's functions read and write: the registry
    [_executors], the dictionary that is the default of the parameter
    [globals] of [exec_python_fence] (one object, made when the function is
    defined), the files written, and what was printed. *)
Record world : Type := mkWorld {
  _executors : gmap string executor;
  python_fence_globals : gmap string pyval;
  files : gmap string string;
  stdout : list string
}.

Definition set_executors (r : gmap string executor) (w : world) : world :=
  mkWorld r (python_fence_globals w) (files w) (stdout w).
Definition set_python_fence_globals (g : gmap string pyval) (w : world) : world :=
  mkWorld (_executors w) g (files w) (stdout w).
Definition write_file (name data : string) (w : world) : world :=
  mkWorld (_executors w) (python_fence_globals w) (<[name := data]> (files w)) (stdout w).
Definition print (line : string) (w : world) : world :=
  mkWorld (_executors w) (python_fence_globals w) (files w) (stdout w ++ [line]).

Definition register_executor (lang : string) (e : executor) (w : world) : world :=
  set_executors (<[lang := e]> (_executors w)) w.

(** The module's top-level statements that touch the state, in the order of
    the file: a first registry with its registrations (lines 196 to 243),
    then a new empty registry bound to the same name (line 384) with the
    registrations that follow it, and the default of [globals] (line 425). *)
Definition module_init : world :=
  let w := mkWorld ∅ ∅ ∅ [] in
  let w := set_executors ∅ w in
  let w := register_executor "bash" ExecBash w in
  let w := register_executor "" ExecPython w in
  let w := register_executor "python" ExecPython w in
  let w := set_executors ∅ w in
  let w := register_executor "yaml" ExecFileFence w in
  let w := register_executor "yml" ExecFileFence w in
  let w := register_executor "toml" ExecFileFence w in
  let w := set_python_fence_globals ∅ w in
  let w := register_executor "python" ExecPythonFence w in
  let w := register_executor "py" ExecPythonFence w in
  let w := register_executor "bash" ExecBashFence w in
  w.

Definition no_attribute (cls name : string) : exn :=
  AttributeError ("'" +:+ cls +:+ "' object has no attribute '" +:+ name +:+ "'").

(** [fence.contents], [fence.options.get], [fence.attrs.get] on what the
    executor was given. *)
Definition get_contents (x : pyobj) : result string :=
  match x with
  | VFence f => Ok (contents f)
  | VStr _ => Raise (no_attribute "str" "contents")
  end.

Definition options_get (x : pyobj) (key : string) : result (option (option string)) :=
  match x with
  | VFence f =>
      match options f with
      | Some d => Ok (od_get key d)
      | None => Raise (no_attribute "NoneType" "get")
      end
  | VStr _ => Raise (no_attribute "str" "options")
  end.

Definition attrs_get (x : pyobj) (key : string) : result (option Attr) :=
  match x with
  | VFence f =>
      match attrs f with
      | Some d => Ok (od_get key d)
      | None => Raise (no_attribute "NoneType" "get")
      end
  | VStr _ => Raise (no_attribute "str" "attrs")
  end.

(** The interpreter and the operating system under the executors:
    - [py_exec code globals] is [exec(code, globals)]: the namespace as the
      code leaves it, also when it raises, and the exception if any, of a
      class derived from [Exception];
    - [openable name] tells whether the system lets [name] be opened for
      writing;
    - [bash_ok script] tells whether [bash -e -u -c script] exits with 0;
    - [sh command] is the standard output of the command run by the shell
      when it exits with 0;
    - [format_fence b] is the text of a [Fence] inside an f-string. *)
Record runtime : Type := mkRuntime {
  py_exec : string -> gmap string pyval -> gmap string pyval * option exn;
  openable : string -> bool;
  bash_ok : string -> bool;
  sh : string -> option string;
  format_fence : Fence -> string
}.

Section Executors.

Variable rt : runtime.

(** [open(fname, "w")] followed by [f.write(data)]. *)
Definition open_write (fname : option string) (data : string) (w : world)
  : world * result unit :=
  match fname with
  | None =>
      (w, Raise (TypeError "expected str, bytes or os.PathLike object, not NoneType"))
  | Some name =>
      if decide (name = ""%string) then
        (w, Raise (FileNotFoundError "[Errno 2] No such file or directory: ''"))
      else if openable rt name then (write_file name data w, Ok ())
      else (w, Raise (OSError name))
  end.

Definition exec_file_fence (x : pyobj) (w : world) : world * result unit :=
  match options_get x "title" with
  | Raise e => (w, Raise e)
  | Ok o =>
      let first := default None o in
      match (if truthy first then Ok first
             else a <- attrs_get x "title" ;;
                  Ok (match a with Some a => value a | None => None end)) with
      | Raise e => (w, Raise e)
      | Ok fname =>
          match get_contents x with
          | Raise e => (w, Raise e)
          | Ok data => open_write fname data w
          end
      end
  end.

(** [exec(fence.contents, globals)] on the one dictionary that is the default
    of [globals], inside [try ... except Exception: print(...); raise]. *)
Definition exec_in_default_globals (code : string) (w : world) : world * result unit :=
  let '(g, err) := py_exec rt code (python_fence_globals w) in
  let w := set_python_fence_globals g w in
  match err with
  | None => (w, Ok ())
  | Some e => (print code w, Raise e)
  end.

Definition exec_python_fence (x : pyobj) (w : world) : world * result unit :=
  match options_get x "title" with
  | Raise e => (w, Raise e)
  | Ok o =>
      match (if truthy (default None o) then Ok true
             else a <- attrs_get x "title" ;; Ok (bool_decide (is_Some a))) with
      | Raise e => (w, Raise e)
      | Ok has_title =>
          let '(w, r) := if has_title then exec_file_fence x w else (w, Ok ()) in
          match r with
          | Raise e => (w, Raise e)
          | Ok _ =>
              match get_contents x with
              | Raise e => (w, Raise e)
              | Ok code => exec_in_default_globals code w
              end
          end
      end
  end.

(** [exec_python(fence)]: the namespace is made by the call and lost with
    it. *)
Definition exec_python (x : pyobj) (w : world) : world * result unit :=
  match get_contents x with
  | Raise e => (w, Raise e)
  | Ok code =>
      let '(_, err) := py_exec rt code {[ "__MODULE__"%string := PyStr "__main__" ]} in
      match err with
      | None => (w, Ok ())
      | Some e => (print code w, Raise e)
      end
  end.

Definition exec_bash (x : pyobj) (w : world) : world * result unit :=
  match get_contents x with
  | Raise e => (w, Raise e)
  | Ok script =>
      if bash_ok rt script then (w, Ok ())
      else (print script w, Raise (CalledProcessError script))
  end.

(** The [(input, output)] pairs that [exec_bash_fence] makes of the
    contents. *)
Definition bash_commands (code : string) : list (string * string) :=
  omap (fun cmd =>
          match splitlines cmd with
          | first :: others => Some (text first, text (join_lines others))
          | [] => None
          end)
       (filter (fun cmd => cmd ≠ []) (split_prompt (chars code))).

Fixpoint run_commands (cmds : list (string * string)) : result unit :=
  match cmds with
  | [] => Ok ()
  | (input, output) :: cmds' =>
      match sh rt input with
      | None => Raise (CalledProcessError input)
      | Some out =>
          if decide (strip (chars out) = strip (chars output)) then run_commands cmds'
          else Raise (AssertionError "")
      end
  end.

Definition exec_bash_fence (x : pyobj) (w : world) : world * result unit :=
  match get_contents x with
  | Raise e => (w, Raise e)
  | Ok code => (w, run_commands (bash_commands code))
  end.

(** Calling what the registry holds. *)
Definition call (e : executor) (x : pyobj) (w : world) : world * result unit :=
  match e with
  | ExecBash => exec_bash x w
  | ExecPython => exec_python x w
  | ExecFileFence => exec_file_fence x w
  | ExecPythonFence => exec_python_fence x w
  | ExecBashFence => exec_bash_fence x w
  end.

(** ** The check entry points *)

Definition unsupported (lang : string) : exn :=
  LookupError (lang +:+ " is not a supported language to check" +:+ String "010" (String "009"
    "Hint: you can add support for any language by using register_executor")).

(** [for b in blocks: executor(b)]: the first exception ends the loop. *)
Fixpoint for_each (e : executor) (blocks : list Fence) (w : world) : world * result unit :=
  match blocks with
  | [] => (w, Ok ())
  | b :: blocks' =>
      match call e (VFence b) w with
      | (w', Ok _) => for_each e blocks' w'
      | (w', Raise err) => (w', Raise err)
      end
  end.

(** [grab_code_blocks(doc, lang=lang)] where [doc] may be [None], as
    [obj.__doc__] is for an object without a docstring. *)
Definition grab_code_blocks_of (doc : option string) (lang : string) : result (list Fence) :=
  match doc with
  | Some d => grab_code_blocks d [("lang"%string, Some lang)]
  | None => Raise (TypeError "expected string or bytes-like object, got 'NoneType'")
  end.

Definition check_docstring (doc : option string) (lang : string) (w : world)
  : world * result unit :=
  match _executors w !! lang with
  | None => (w, Raise (unsupported lang))
  | Some executor =>
      match grab_code_blocks_of doc lang with
      | Raise e => (w, Raise e)
      | Ok blocks => for_each executor blocks w
      end
  end.

Definition check_raw_string (raw : string) (lang : string) (w : world)
  : world * result unit :=
  match _executors w !! lang with
  | None => (w, Raise (unsupported lang))
  | Some executor =>
      match grab_code_blocks raw [("lang"%string, Some lang)] with
      | Raise e => (w, Raise e)
      | Ok blocks => for_each executor blocks w
      end
  end.

Definition check_raw_file_full (raw : string) (lang : string) (w : world)
  : world * result unit :=
  match _executors w !! lang with
  | None => (w, Raise (unsupported lang))
  | Some executor =>
      match grab_code_blocks raw [("lang"%string, Some lang)] with
      | Raise e => (w, Raise e)
      | Ok blocks =>
          let all_code :=
            fold_left (fun all_code b => all_code +:+ String "010" (format_fence rt b))
                      blocks ""%string in
          call executor (VStr all_code) w
      end
  end.

(** [check_md_file], given the text that [read_text] returned. *)
Definition check_md_file (file_text : string) (memory : bool) (lang : string) (w : world)
  : world * result unit :=
  if negb memory then check_raw_string file_text lang w
  else check_raw_file_full file_text lang w.

End Executors.

(** ** Notions used to state the properties *)

(** Two continuations that agree from position [i] to the end of the text,
    a matcher that looks at its continuation there only, and the entries
    of the loop of a repeat that are still to come, at most. *)
Definition agree_from (s : list ascii) (i : nat) (k1 k2 : cont) : Prop :=
  ∀ j c, i ≤ j ≤ length s → k1 j c = k2 j c.

Definition local (s : list ascii) (body : nat → caps → cont → option (nat * caps)) : Prop :=
  ∀ i c k1 k2, i ≤ length s → agree_from s i k1 k2 → body i c k1 = body i c k2.

Definition loop_bound (s : list ascii) (lo count : nat) (last : option nat) (i : nat) : nat :=
  (lo - count) + (length s - i) + (if decide (last = Some i) then 1 else 2).

(** The record that [from_re_groups] makes of one item of [findall]. *)
Definition fence_of_match (doc : string) (m : match_obj) : Fence :=
  let g n := Some (default ""%string (group doc m n)) in
  let attrs := attrs_from_str (g 5) in
  mkFence (g 2)
    (py_or (g 7)
       match attrs with
       | (name, a) :: _ => if decide (type a = "class"%string) then Some name else None
       | [] => None
       end)
    (Some attrs) (Some (options_from_str (g 8)))
    (dedent (default ""%string (group doc m 10))) (g 1).


Definition nl : string := String "010" "".

(** The parts of the text that match [m] took from [doc]: the opening
    marker and the rest of the opening line, the body, which [contents]
    holds dedented, and the closing line. *)
Definition marker_lines_and_body (doc : string) (m : match_obj) (f : Fence) : Prop :=
  ∃ marker header body spaces : string,
    fence f = Some marker ∧ contents f = dedent body ∧
    substr doc (m_start m) (m_end m)
    = marker +:+ header +:+ nl +:+ body +:+ marker +:+ spaces.




(** The tokens that the loop of [attrs_from_str] takes from the header,
    with the entry each one stores, in the order of the header. *)
Fixpoint attr_tokens (fuel : nat) (raw : string) : list (string * Attr) :=
  match fuel with
  | 0 => []
  | S fuel' =>
      if decide (raw = ""%string) then []
      else
        match attr_token raw with
        | Some (name, a, e) => (name, a) :: attr_tokens fuel' (str_drop e raw)
        | None => []
        end
  end.

Definition tokens_of (raw : option string) : list (string * Attr) :=
  match raw with
  | Some raw => attr_tokens (String.length raw) raw
  | None => []
  end.

(** The names of a list, each at its first place. *)
Fixpoint dedup_first (l : list string) : list string :=
  match l with
  | [] => []
  | k :: l' => k :: filter (λ x, x ≠ k) (dedup_first l')
  end.

(** [d[name] = entry] for a token [(name, entry)]. *)
Definition store {V} (d : odict V) (t : string * V) : odict V := od_set t.1 t.2 d.

(** Whether [needle] occurs in [hay]. *)
Fixpoint starts_with (p l : list ascii) : bool :=
  match p, l with
  | [], _ => true
  | a :: p', b :: l' => bool_decide (a = b) && starts_with p' l'
  | _ :: _, [] => false
  end.

Fixpoint occurs_in (needle hay : list ascii) : bool :=
  starts_with needle hay ||
  match hay with
  | [] => false
  | _ :: hay' => occurs_in needle hay'
  end.

Definition mentions (needle : string) (e : exn) : bool :=
  match e with
  | LookupError msg | AttributeError msg | TypeError msg | IndexError msg
  | FileNotFoundError msg | OSError msg | AssertionError msg
  | CalledProcessError msg | Raised _ msg => occurs_in (chars needle) (chars msg)
  end.

(** What it is for a check to dispatch the records [blocks] to the executor
    [e] from the state [w]: the executor is called on each record in turn,
    whatever the language of the record, each call in the state that the
    call before it left; the outcome is the state after the last record, or
    the error and the state of the first call that raises, the records after
    it not being passed. *)
Inductive dispatched (rt : runtime) (e : executor)
  : list Fence -> world -> world * result unit -> Prop :=
| dispatched_all (w : world) :
    dispatched rt e [] w (w, Ok ())
| dispatched_next (b : Fence) (blocks : list Fence) (w w' : world) (r : world * result unit) :
    call rt e (VFence b) w = (w', Ok ()) ->
    dispatched rt e blocks w' r ->
    dispatched rt e (b :: blocks) w r
| dispatched_stop (b : Fence) (blocks : list Fence) (w w' : world) (err : exn) :
    call rt e (VFence b) w = (w', Raise err) ->
    dispatched rt e (b :: blocks) w (w', Raise err).

(** A fence, as [grab_fences] makes them, with no option and no attribute
    named [title]. *)
Definition no_title (f : Fence) : Prop :=
  ∃ o a, options f = Some o ∧ attrs f = Some a ∧
         od_get "title" o = None ∧ od_get "title" a = None.

(** *** A small interpreter and system for the examples

    [demo_exec] does what [exec] does to the bindings of a namespace for
    the two programs used in the examples, [x = 1] and [y = x]; it leaves
    out the entry [__builtins__] that [exec] adds, and takes any other
    program to bind nothing. *)
Definition demo_exec (code : string) (g : gmap string pyval)
  : gmap string pyval * option exn :=
  if decide (code = "x = 1" +:+ nl) then (<["x"%string := PyInt 1]> g, None)
  else if decide (code = "y = x" +:+ nl) then
    match g !! "x"%string with
    | Some v => (<["y"%string := v]> g, None)
    | None => (g, Some (Raised "NameError" "name 'x' is not defined"))
    end
  else (g, None).

Definition demo : runtime :=
  mkRuntime demo_exec (λ _, true) (λ _, true) (λ _, Some ""%string)
            (λ b, default ""%string (raw b)).

(** One python block that binds [x], one that reads it, and the two in one
    document. *)
Definition block_x_doc : string := "```python" +:+ nl +:+ "x = 1" +:+ nl +:+ "```" +:+ nl.
Definition block_y_doc : string := "```python" +:+ nl +:+ "y = x" +:+ nl +:+ "```" +:+ nl.

(** A document whose two blocks are tagged [yaml] and [bash]. *)
Definition other_tags : string :=
  "```yaml" +:+ nl +:+ "x = 1" +:+ nl +:+ "```" +:+ nl +:+
  "```bash" +:+ nl +:+ "y = x" +:+ nl +:+ "```" +:+ nl.

Definition two_blocks : string :=
  "```python" +:+ nl +:+ "x = 1" +:+ nl +:+ "```" +:+ nl +:+
  "```python" +:+ nl +:+ "y = x" +:+ nl +:+ "```" +:+ nl.

Definition block_x : Fence :=
  mkFence (Some "```") (Some "python") (Some []) (Some []) ("x = 1" +:+ nl)
          (Some ("```python" +:+ nl +:+ "x = 1" +:+ nl +:+ "```")).

Definition block_y : Fence :=
  mkFence (Some "```") (Some "python") (Some []) (Some []) ("y = x" +:+ nl)
          (Some ("```python" +:+ nl +:+ "y = x" +:+ nl +:+ "```")).

(** A yaml block with no title, and one with a title. *)
Definition yaml_untitled : Fence :=
  mkFence (Some "```") (Some "yaml") (Some []) (Some []) ("a: 1" +:+ nl)
          (Some ("```yaml" +:+ nl +:+ "a: 1" +:+ nl +:+ "```")).

Definition yaml_titled : Fence :=
  mkFence (Some "```") (Some "yaml") (Some [])
          (Some [("title", Some "out.yaml")]) ("a: 1" +:+ nl)
          (Some ("```yaml title='out.yaml'" +:+ nl +:+ "a: 1" +:+ nl +:+ "```")).

(** Where the parts of a fenced block are: the opening run of [b - i] fence
    characters at the start of a line, with no fence character after it, the
    end [q - 1] of the opening line, the body up to a line start [p], and
    the closing line, which is the opening run again followed by spaces
    only, up to the end [j] of that line. *)
Record block_shape (s : list ascii) (i j : nat) (c : caps) (b q p : nat) (ch : ascii) : Prop := {
  shape_fence_char : ch = "`"%char ∨ ch = "~"%char;
  shape_bol : at_bol s i = true;
  shape_run : i + 3 ≤ b;
  shape_opening : ∀ x, i ≤ x < b → s !! x = Some ch;
  shape_run_end : ∀ a, s !! b = Some a → ¬ (a = "`"%char ∨ a = "~"%char);
  shape_header_end : b < q ∧ s !! (q - 1) = Some "010"%char;
  shape_body : q ≤ p ∧ char_before s p = Some "010"%char;
  shape_closing : slice p (p + (b - i)) s = slice i b s;
  shape_closing_end : p + (b - i) ≤ j ≤ length s;
  shape_spaces : ∀ x, p + (b - i) ≤ x < j → s !! x = Some " "%char;
  shape_eol : at_eol s j = true;
  shape_raw : c 1 = Some (i, j);
  shape_fence : c 2 = Some (i, b);
  shape_code : c 10 = Some (q, p)
}.


(** A text that starts with a block: an opening line of [N] fence
    characters, the lines of [body], a closing line of the same [N]
    characters and [n] spaces, and the [rest] of the text. *)
Definition fenced_text (ch : ascii) (N n : nat) (body rest : list ascii) : list ascii :=
  replicate N ch ++ "010"%char :: body ++ replicate N ch ++ replicate n " "%char ++ rest.







(** ** The functions of the module that the blocks above do not use *)

(** [check_codeblock(block, lang)]: the block without its first line, or
    the empty string when [lang] is given and is not what follows the three
    characters of the marker on the first line. *)
Definition check_codeblock (block : string) (lang : option string) : string :=
  let lines := split_lines (chars block) in
  let first_line := default [] (head lines) in
  if truthy lang && negb (bool_decide (Some (text (drop 3 first_line)) = lang)) then ""%string
  else text (join_lines (tail lines)).

(** The first definition of [grab_code_blocks] (lines 277 to 297), which the
    one of line 310 replaces: the loop over the lines of the dedented
    docstring keeps [in_block], [block] and [codeblocks]. *)
Module First.

Record loop_state : Type := mkLoop {
  in_block : bool;
  block : string;
  codeblocks : list string
}.

Definition step (lang : option string) (st : loop_state) (line : list ascii) : loop_state :=
  let st :=
    if starts_with (chars "```") line then
      if in_block st then
        mkLoop (negb (in_block st)) ""%string
               (codeblocks st ++ [check_codeblock (block st) lang])
      else mkLoop (negb (in_block st)) (block st) (codeblocks st)
    else st in
  if in_block st then mkLoop (in_block st) (block st +:+ text line +:+ String "010" "") (codeblocks st)
  else st.

Definition grab_code_blocks (docstring : string) (lang : option string) : list string :=
  let st := fold_left (step lang) (split_lines (chars (dedent docstring)))
                      (mkLoop false ""%string []) in
  filter (λ c, c ≠ ""%string) (codeblocks st).

End First.

(** [get_codeblock_members], called with any number of objects: [doc_of]
    is the attribute [__doc__] of an object, when it is a string, and
    [getmembers] is [inspect.getmembers]. *)
Section Members.

Context {obj : Type}.
Variable doc_of : obj -> option string.
Variable getmembers : obj -> list (string * obj).

Definition documented (x : obj) : list obj :=
  if truthy (doc_of x) then [x] else [].

Definition candidates (classes : list obj) : list obj :=
  flat_map (λ cl, documented cl ++ flat_map (λ nm, documented nm.2) (getmembers cl)) classes.

(** [len(grab_code_blocks(m.__doc__)) > 0]. *)
Definition has_code_blocks (m : obj) : result bool :=
  match doc_of m with
  | Some d => blocks <- grab_code_blocks d [] ;; Ok (bool_decide (0 < length blocks))
  | None => Raise (TypeError "expected string or bytes-like object, got 'NoneType'")
  end.

Fixpoint keep_if (test : obj -> result bool) (l : list obj) : result (list obj) :=
  match l with
  | [] => Ok []
  | m :: l' =>
      b <- test m ;; ms <- keep_if test l' ;; Ok (if b then m :: ms else ms)
  end.

Definition get_codeblock_members (classes : list obj) : result (list obj) :=
  keep_if has_code_blocks (candidates classes).

(** Whether the docstring of [m] holds a fenced block. *)
Definition has_fence (m : obj) : bool :=
  match doc_of m with
  | Some d => bool_decide (finditer FENCED_BLOCK_RE d ≠ [])
  | None => false
  end.

End Members.

(** *** Notions used to state the properties of these and of the parsers *)

(** The pairs that the loop of [options_from_str] stores, in the order of
    the header. *)
Fixpoint option_tokens (fuel : nat) (raw : string) : list (string * option string) :=
  match fuel with
  | 0 => []
  | S fuel' =>
      if decide (raw = ""%string) then []
      else
        match re_match KEY_VAL_RE raw with
        | None => []
        | Some m =>
            match group raw m 1 with
            | Some key => (key, group raw m 3) :: option_tokens fuel' (str_drop (m_end m) raw)
            | None => []
            end
        end
  end.

Definition option_tokens_of (raw : option string) : list (string * option string) :=
  match raw with
  | Some raw => option_tokens (String.length raw) raw
  | None => []
  end.

(** A name as the header patterns take them: a letter, then characters of
    the class [tail_ok]. *)
Definition identifier (tail_ok : ascii -> bool) (name : string) : bool :=
  match chars name with
  | a :: rest => alpha a && forallb tail_ok rest
  | [] => false
  end.

(** The entries that [attrs_from_str] makes: a class or an id, without a
    value, or a key with its value if it has one. *)
Definition attr_entry (name : string) (a : Attr) : Prop :=
  (type a = "class"%string ∧ value a = None ∧ identifier name_char name = true) ∨
  (type a = "id"%string ∧ value a = None ∧ identifier name_char name = true) ∨
  (type a = "keyval"%string ∧ identifier key_char name = true).

(** Whether a line of [s] starts at [p] with three backticks or three
    tildes, and whether some line after the first does: only such a line
    can close a block. *)
Definition three_at (s : list ascii) (p : nat) (ch : ascii) : bool :=
  holds (eqc ch) (s !! p) && holds (eqc ch) (s !! (p + 1)) && holds (eqc ch) (s !! (p + 2)).

Definition marker_line_at (s : list ascii) (p : nat) : bool :=
  holds (eqc "010") (char_before s p) && (three_at s p "`" || three_at s p "~").

Definition has_marker_line (s : list ascii) : bool :=
  existsb (marker_line_at s) (seq 0 (length s)).

(** The commands of a block pass: each one exits with 0 and prints the
    expected output, up to the white space around it. *)
Definition command_passes (rt : runtime) (cmd : string * string) : Prop :=
  ∃ out, sh rt cmd.1 = Some out ∧ strip (chars out) = strip (chars cmd.2).

(** The namespace that [exec_python] makes for each call. *)
Definition fresh_globals : gmap string pyval :=
  {[ "__MODULE__"%string := PyStr "__main__" ]}.

(** Documents for the examples: a block that reads [x] before the block that
    binds it, a python block whose braces hold a [title] without a value,
    and one with a title option. *)
Definition y_then_x : string :=
  "```python" +:+ nl +:+ "y = x" +:+ nl +:+ "```" +:+ nl +:+
  "```python" +:+ nl +:+ "x = 1" +:+ nl +:+ "```" +:+ nl.

Definition valueless_title : Fence :=
  mkFence (Some "```") (Some "python")
          (Some [("python"%string, mkAttr None "class"); ("title"%string, mkAttr None "keyval")])
          (Some []) ("x = 1" +:+ nl)
          (Some ("```{.python title}" +:+ nl +:+ "x = 1" +:+ nl +:+ "```")).

Definition python_titled : Fence :=
  mkFence (Some "```") (Some "python") (Some [])
          (Some [("title"%string, Some "a.py"%string)]) ("y = x" +:+ nl)
          (Some ("```python title='a.py'" +:+ nl +:+ "y = x" +:+ nl +:+ "```")).

(** A transcript as [exec_bash_fence] reads it: for each entry the prompt,
    the command, a newline and the expected output. An entry is well formed
    when its command holds no line break and the prompt occurs nowhere in
    it. *)
Definition transcript (entries : list (list ascii * list ascii)) : list ascii :=
  flat_map (λ e, "$"%char :: " "%char :: e.1 ++ "010"%char :: e.2) entries.

Definition entry_ok (e : list ascii * list ascii) : bool :=
  forallb (λ a, negb (line_break a)) e.1 &&
  negb (occurs_in (chars "$ ") (e.1 ++ "010"%char :: e.2)).

(** The command that [exec_bash_fence] makes of one part of the contents:
    the first line is run, the other lines are the expected output. *)
Definition command_of (chunk : list ascii) : string * string :=
  (text (default [] (head (splitlines chunk))), text (join_lines (tail (splitlines chunk)))).

(** A python block that no line closes, and a docstring with some text
    and one block. *)
Definition unterminated : string := "```python" +:+ nl +:+ "x = 1" +:+ nl.

Definition docstring_with_block : string :=
  "Example:" +:+ nl +:+ nl +:+ "```python" +:+ nl +:+ "x = 1" +:+ nl +:+ "```" +:+ nl.

(** * Properties *)

(** ** The matcher and what a pattern can match *)

Section Matcher.

Context (s : list ascii).

Lemma orelse_Some {A} (x y : option A) (a : A) :
  orelse x y = Some a → x = Some a ∨ y = Some a.
Proof. destruct x; simpl; auto. Qed.

Lemma orelse_is_Some_l {A} (x y : option A) : is_Some x → is_Some (orelse x y).
Proof. by intros [a ->]. Qed.

Lemma orelse_is_Some_r {A} (x y : option A) : is_Some y → is_Some (orelse x y).
Proof. destruct x; simpl; eauto. Qed.

(** *** The matcher finds only what the pattern can match *)

Lemma repeat_loop_sound body greedy lo k (R : nat → caps → nat → caps → Prop) :
  (∀ i c k' res, body i c k' = Some res → ∃ j c', R i c j c' ∧ k' j c' = Some res) →
  ∀ fuel count last i c res,
    repeat_loop body greedy lo k fuel count last i c = Some res →
    ∃ j c', Iter false R (lo - count) i c j c' ∧ k j c' = Some res.
Proof.
  intros Hbody. induction fuel as [|fuel IH]; intros count last i c res H; [done|].
  simpl in H.
  assert (Hagain : body i c (λ j c', repeat_loop body greedy lo k fuel (S count) (Some i) j c')
                   = Some res →
                   ∃ j c', Iter false R (lo - count) i c j c' ∧ k j c' = Some res).
  { intros Hb. apply Hbody in Hb as (j & c' & HR & Hl).
    apply IH in Hl as (j' & c'' & Hit & Hk).
    exists j', c''. split; [|done].
    eapply Iter_more; [done|exact HR|].
    replace (pred (lo - count)) with (lo - S count) by lia. done. }
  destruct (count <? lo) eqn:Hlt; [by apply Hagain|].
  apply Nat.ltb_ge in Hlt.
  assert (Hstop : k i c = Some res →
                  ∃ j c', Iter false R (lo - count) i c j c' ∧ k j c' = Some res).
  { intros Hk. exists i, c. split; [|done].
    replace (lo - count) with 0 by lia. constructor. }
  destruct greedy; apply orelse_Some in H as [H|H]; auto;
    destruct (decide (last = Some i)); try done; auto.
Qed.

Theorem rmatch_sound r : ∀ i c k res,
  rmatch s r i c k = Some res → ∃ j c', Matches s r i c j c' ∧ k j c' = Some res.
Proof.
  induction r as [|p|r1 IH1 r2 IH2|r1 IH1 r2 IH2|g lo r IH|n r IH|n| | | |p];
    intros i c k res H; simpl in H.
  - by exists i, c.
  - destruct (s !! i) as [a|] eqn:Ha; [|done].
    destruct (p a) eqn:Hp; [|done].
    exists (S i), c. split; [|done]. by exists a.
  - apply IH1 in H as (m & cm & H1 & H).
    apply IH2 in H as (j & c' & H2 & H).
    exists j, c'. split; [|done]. by exists m, cm.
  - apply orelse_Some in H as [H|H].
    + apply IH1 in H as (j & c' & H1 & H). exists j, c'. split; [by left|done].
    + apply IH2 in H as (j & c' & H2 & H). exists j, c'. split; [by right|done].
  - eapply repeat_loop_sound in H as (j & c' & Hit & Hk); [|exact IH].
    rewrite Nat.sub_0_r in Hit. by exists j, c'.
  - apply IH in H as (j & c' & H1 & H).
    exists j, (set_cap n (i, j) c'). split; [|done]. by exists c'.
  - destruct (c n) as [[a b]|] eqn:Hc; [|done].
    case_decide as Hd; [|done]. destruct Hd as [Hs Hl].
    exists (i + (b - a)), c. split; [|done]. by exists a, b.
  - destruct (at_bol s i) eqn:Hb; [|done]. by exists i, c.
  - destruct (at_eol s i) eqn:Hb; [|done]. by exists i, c.
  - destruct (at_word_boundary s i) eqn:Hb; [|done]. by exists i, c.
  - destruct (holds p (char_before s i)) eqn:Hb; [|done]. by exists i, c.
Qed.

Lemma match_at_sound r i m :
  match_at r s i = Some m →
  m_start m = i ∧ Matches s r i no_caps (m_end m) (m_caps m).
Proof.
  unfold match_at. intros H.
  destruct (rmatch s r i no_caps _) as [[j c]|] eqn:Hm; [|done].
  simplify_eq. apply rmatch_sound in Hm as (j' & c' & HM & ?). by simplify_eq.
Qed.

(** *** A match moves forward, stays within the text, and leaves the groups
    that the pattern does not hold as they were *)

Lemma Iter_weaken moving (R R' : nat → caps → nat → caps → Prop) lo i c j c' :
  (∀ i c j c', R i c j c' → R' i c j c') →
  Iter moving R lo i c j c' → Iter false R' lo i c j c'.
Proof.
  intros HR. induction 1 as [|lo i c j c' j' c'' Hm H1 H2 IH]; [constructor|].
  eapply Iter_more; [done|by apply HR|done].
Qed.

Lemma Derives_Matches moving r : ∀ i c j c',
  Derives moving s r i c j c' → Matches s r i c j c'.
Proof.
  induction r as [|p|r1 IH1 r2 IH2|r1 IH1 r2 IH2|g lo r IH|n r IH|n| | | |p];
    intros i c j c' H; simpl in H |- *; try done.
  - destruct H as (m & cm & H1 & H2). exists m, cm. eauto.
  - destruct H; eauto.
  - eapply Iter_weaken; eauto.
  - destruct H as (c0 & H & ->). exists c0. eauto.
Qed.

Lemma Iter_ind_le moving (R : nat → caps → nat → caps → Prop) lo i c j c' :
  (∀ i c j c', R i c j c' → i ≤ j) → Iter moving R lo i c j c' → i ≤ j.
Proof.
  intros HR. induction 1 as [|lo i c j c' j' c'' Hm H1 H2 IH]; [done|].
  apply HR in H1. lia.
Qed.

Lemma Matches_le r : ∀ i c j c', Matches s r i c j c' → i ≤ j.
Proof.
  induction r as [|p|r1 IH1 r2 IH2|r1 IH1 r2 IH2|g lo r IH|n r IH|n| | | |p];
    intros i c j c' H; simpl in H.
  - lia.
  - destruct H as (a & ? & ? & -> & ->). lia.
  - destruct H as (m & cm & H1 & H2). apply IH1 in H1. apply IH2 in H2. lia.
  - destruct H; eauto.
  - eapply Iter_ind_le; eauto.
  - destruct H as (c0 & H & ->). eauto.
  - destruct H as (a & b & ? & ? & ? & -> & ->). lia.
  - lia.
  - lia.
  - lia.
  - lia.
Qed.

Lemma Matches_bound r : ∀ i c j c', i ≤ length s → Matches s r i c j c' → j ≤ length s.
Proof.
  induction r as [|p|r1 IH1 r2 IH2|r1 IH1 r2 IH2|g lo r IH|n r IH|n| | | |p];
    intros i c j c' Hi H; simpl in H.
  - lia.
  - destruct H as (a & Ha & ? & -> & ->). apply lookup_lt_Some in Ha. lia.
  - destruct H as (m & cm & H1 & H2). eauto.
  - destruct H; eauto.
  - induction H; eauto.
  - destruct H as (c0 & H & ->). eauto.
  - destruct H as (a & b & ? & ? & ? & -> & ->). lia.
  - lia.
  - lia.
  - lia.
  - lia.
Qed.

Lemma Matches_caps r : ∀ i c j c' n,
  n ∉ groups_of r → Matches s r i c j c' → c' n = c n.
Proof.
  induction r as [|p|r1 IH1 r2 IH2|r1 IH1 r2 IH2|g lo r IH|n r IH|n| | | |p];
    intros i c j c' x Hx H; simpl in H, Hx.
  - by destruct H as [_ ->].
  - by destruct H as (a & ? & ? & -> & ->).
  - destruct H as (m & cm & H1 & H2).
    rewrite not_elem_of_app in Hx. destruct Hx.
    etrans; [eapply IH2|eapply IH1]; eauto.
  - rewrite not_elem_of_app in Hx. destruct Hx. destruct H; eauto.
  - induction H as [|lo i c j c' j' c'' Hm H1 H2 IH']; [done|].
    etrans; [apply IH'|]; eauto.
  - destruct H as (c0 & H & ->). rewrite not_elem_of_cons in Hx. destruct Hx.
    unfold set_cap. case_decide; [done|]. eauto.
  - by destruct H as (a & b & ? & ? & ? & -> & ->).
  - by destruct H as (? & ? & ->).
  - by destruct H as (? & ? & ->).
  - by destruct H as (? & ? & ->).
  - by destruct H as (? & ? & ->).
Qed.

(** A repeat of a character class takes characters of the class and sets no
    group; and it can take any run of such characters. *)
Lemma Iter_Char moving p lo i c j c' :
  Iter moving (Derives moving s (Char p)) lo i c j c' →
  c' = c ∧ i + lo ≤ j ∧ ∀ x, i ≤ x < j → holds p (s !! x) = true.
Proof.
  induction 1 as [|lo i c j c' j' c'' Hm H1 H2 IH].
  - split; [done|]. split; [lia|]. intros. lia.
  - simpl in H1. destruct H1 as (a & Ha & Hp & -> & ->).
    destruct IH as (-> & Hle & Hall). split; [done|]. split; [lia|].
    intros x Hx. destruct (decide (x = i)) as [->|]; [by rewrite Ha|].
    apply Hall. lia.
Qed.

Lemma Iter_Char_run moving p c : ∀ n lo i,
  lo ≤ n →
  (∀ x, i ≤ x < i + n → holds p (s !! x) = true) →
  Iter moving (Derives moving s (Char p)) lo i c (i + n) c.
Proof.
  induction n as [|n IH]; intros lo i Hlo Hall.
  - replace lo with 0 by lia. rewrite Nat.add_0_r. constructor.
  - pose proof (Hall i ltac:(lia)) as Hi.
    destruct (s !! i) as [a|] eqn:Ha; [|done]. simpl in Hi.
    eapply (Iter_more _ _ lo i c (S i) c).
    + intros _. lia.
    + simpl. by exists a.
    + replace (i + S n) with (S i + n) by lia. apply IH; [lia|].
      intros x Hx. apply Hall. lia.
Qed.

(** *** The fuel of a repeat never runs out

    What the matcher returns depends on its continuation only at the
    positions from [i] to the end of the text; from this, a loop that is
    given more fuel than [rmatch] gives it returns the same. *)

Lemma repeat_loop_ext body greedy lo k1 k2 :
  local s body →
  ∀ fuel count last i c,
    i ≤ length s → agree_from s i k1 k2 →
    repeat_loop body greedy lo k1 fuel count last i c
    = repeat_loop body greedy lo k2 fuel count last i c.
Proof.
  intros Hbody. induction fuel as [|fuel IH]; intros count last i c Hi Hk; [done|].
  simpl.
  assert (Hagain :
    body i c (λ j c', repeat_loop body greedy lo k1 fuel (S count) (Some i) j c')
    = body i c (λ j c', repeat_loop body greedy lo k2 fuel (S count) (Some i) j c')).
  { apply Hbody; [done|]. intros j c' Hj. apply IH; [lia|].
    intros j' c'' Hj'. apply Hk. lia. }
  rewrite Hagain, (Hk i c) by lia. done.
Qed.

Lemma rmatch_local r : local s (rmatch s r).
Proof.
  induction r as [|p|r1 IH1 r2 IH2|r1 IH1 r2 IH2|g lo r IH|n r IH|n| | | |p];
    intros i c k1 k2 Hi Hk; simpl.
  - apply Hk. lia.
  - destruct (s !! i) as [a|] eqn:Ha; [|done]. apply lookup_lt_Some in Ha.
    destruct (p a); [|done]. apply Hk. lia.
  - apply IH1; [done|]. intros j c' Hj. apply IH2; [lia|].
    intros j' c'' Hj'. apply Hk. lia.
  - by rewrite (IH1 i c k1 k2), (IH2 i c k1 k2).
  - by apply repeat_loop_ext.
  - apply IH; [done|]. intros j c' Hj. by apply Hk.
  - destruct (c n) as [[a b]|]; [|done]. case_decide as Hd; [|done].
    apply Hk. lia.
  - destruct (at_bol s i); [|done]. apply Hk. lia.
  - destruct (at_eol s i); [|done]. apply Hk. lia.
  - destruct (at_word_boundary s i); [|done]. apply Hk. lia.
  - destruct (holds p (char_before s i)); [|done]. apply Hk. lia.
Qed.

Lemma repeat_loop_fuel body greedy lo k :
  local s body →
  ∀ fuel1 fuel2 count last i c,
    i ≤ length s →
    loop_bound s lo count last i ≤ fuel1 →
    loop_bound s lo count last i ≤ fuel2 →
    repeat_loop body greedy lo k fuel1 count last i c
    = repeat_loop body greedy lo k fuel2 count last i c.
Proof.
  intros Hbody. induction fuel1 as [|fuel1 IH]; intros fuel2 count last i c Hi H1 H2.
  { unfold loop_bound in H1. case_decide; lia. }
  destruct fuel2 as [|fuel2].
  { unfold loop_bound in H2. case_decide; lia. }
  simpl.
  assert (Hnext : ∀ j, i ≤ j ≤ length s →
            (count < lo ∨ last ≠ Some i) →
            loop_bound s lo (S count) (Some i) j ≤ fuel1 ∧
            loop_bound s lo (S count) (Some i) j ≤ fuel2).
  { intros j Hj Hc. unfold loop_bound in *.
    destruct (decide (i = j)) as [->|Hij].
    - rewrite decide_True by done.
      destruct (decide (last = Some j)); [destruct Hc; [lia|done]|lia].
    - rewrite decide_False by congruence.
      destruct (decide (last = Some i)); [destruct Hc; [lia|done]|lia]. }
  assert (Hagain : count < lo ∨ last ≠ Some i →
    body i c (λ j c', repeat_loop body greedy lo k fuel1 (S count) (Some i) j c')
    = body i c (λ j c', repeat_loop body greedy lo k fuel2 (S count) (Some i) j c')).
  { intros Hc. apply Hbody; [done|]. intros j c' Hj.
    destruct (Hnext j Hj Hc). apply IH; [lia|done|done]. }
  destruct (count <? lo) eqn:Hlt.
  - apply Nat.ltb_lt in Hlt. apply Hagain. by left.
  - destruct (decide (last = Some i)); [done|]. rewrite Hagain by (by right). done.
Qed.

Theorem repeat_fuel_is_enough r greedy lo k i c extra :
  i ≤ length s →
  repeat_loop (rmatch s r) greedy lo k (lo + (length s - i) + 2 + extra) 0 None i c
  = rmatch s (Repeat greedy lo r) i c k.
Proof.
  intros Hi. simpl. apply repeat_loop_fuel; [apply rmatch_local|done| |].
  - unfold loop_bound. rewrite decide_False by done. lia.
  - unfold loop_bound. rewrite decide_False by done. lia.
Qed.

(** *** The matcher finds a match when the pattern can match with rounds
    that move *)

Lemma repeat_loop_complete body greedy lo k (R : nat → caps → nat → caps → Prop) :
  (∀ i c j c' k', R i c j c' → i ≤ length s → is_Some (k' j c') → is_Some (body i c k')) →
  (∀ i c j c', R i c j c' → i ≤ length s → j ≤ length s) →
  ∀ n i c j c', Iter true R n i c j c' →
    ∀ fuel count last,
      n = lo - count → last ≠ Some i → i ≤ length s → length s - i + 1 ≤ fuel →
      is_Some (k j c') →
      is_Some (repeat_loop body greedy lo k fuel count last i c).
Proof.
  intros Hbody Hbound n i c j c' Hit.
  induction Hit as [i c|n i c j c' j' c'' Hm H1 H2 IH];
    intros fuel count last Hn Hlast Hi Hfuel Hk.
  - destruct fuel as [|fuel]; [lia|]. simpl.
    replace (count <? lo) with false by (symmetry; apply Nat.ltb_ge; lia).
    destruct greedy; [by apply orelse_is_Some_r|by apply orelse_is_Some_l].
  - destruct fuel as [|fuel]; [lia|]. simpl.
    specialize (Hm eq_refl).
    assert (Hagain : is_Some
      (body i c (λ j c', repeat_loop body greedy lo k fuel (S count) (Some i) j c'))).
    { pose proof (Hbound _ _ _ _ H1 Hi) as Hj.
      eapply Hbody; [exact H1|done|].
      apply IH; [lia| |done|lia|done].
      intros ?. simplify_eq. lia. }
    destruct (count <? lo); [done|].
    rewrite decide_False by done.
    destruct greedy; [by apply orelse_is_Some_l|].
    destruct (k i c); [by eexists|done].
Qed.

Theorem rmatch_complete r : ∀ i c j c' k,
  Derives true s r i c j c' → i ≤ length s → is_Some (k j c') →
  is_Some (rmatch s r i c k).
Proof.
  induction r as [|p|r1 IH1 r2 IH2|r1 IH1 r2 IH2|g lo r IH|n r IH|n| | | |p];
    intros i c j c' k H Hi Hk; simpl in H |- *.
  - by destruct H as [-> ->].
  - destruct H as (a & -> & -> & -> & ->). done.
  - destruct H as (m & cm & H1 & H2).
    eapply IH1; [exact H1|done|].
    eapply IH2; [exact H2| |done].
    eapply Matches_bound; [done|]. eapply Derives_Matches, H1.
  - destruct H as [H|H].
    + apply orelse_is_Some_l. eauto.
    + apply orelse_is_Some_r. eauto.
  - assert (Hb1 : ∀ i c j c' k', Derives true s r i c j c' → i ≤ length s →
                     is_Some (k' j c') → is_Some (rmatch s r i c k'))
      by (intros; eapply IH; eauto).
    assert (Hb2 : ∀ i c j c', Derives true s r i c j c' → i ≤ length s → j ≤ length s)
      by (intros; eapply Matches_bound; [done|]; by eapply Derives_Matches).
    apply (repeat_loop_complete _ g lo k _ Hb1 Hb2 lo i c j c' H); [lia|done|done|lia|done].
  - destruct H as (c0 & H & ->). eapply IH; [exact H|done|done].
  - destruct H as (a & b & -> & Hs & Hl & -> & ->).
    by rewrite decide_True.
  - destruct H as (-> & -> & ->). done.
  - destruct H as (-> & -> & ->). done.
  - destruct H as (-> & -> & ->). done.
  - destruct H as (-> & -> & ->). done.
Qed.

Lemma match_at_complete r i j c :
  Derives true s r i no_caps j c → i ≤ length s → is_Some (match_at r s i).
Proof.
  intros H Hi. unfold match_at.
  destruct (rmatch_complete r i no_caps j c (λ j c, Some (j, c)) H Hi) as [[j' c'] ->];
    by eauto.
Qed.

End Matcher.

(** ** The shape of a match of [FENCED_BLOCK_RE] *)

Lemma slice_replicate {A} (l : list A) (a b : nat) (x : A) :
  (∀ k, a ≤ k < b → l !! k = Some x) → slice a b l = replicate (b - a) x.
Proof.
  intros H. unfold slice. apply list_eq. intros k.
  destruct (decide (k < b - a)) as [Hk|Hk].
  - rewrite lookup_take_lt, lookup_drop by lia.
    rewrite lookup_replicate_2 by lia. apply H. lia.
  - rewrite lookup_take_ge by lia. symmetry. apply lookup_replicate_None. lia.
Qed.

Lemma holds_eqc (a : ascii) (o : option ascii) : holds (eqc a) o = true → o = Some a.
Proof.
  destruct o as [x|]; simpl; [|done]. unfold eqc. intros H.
  apply bool_decide_eq_true in H. by subst.
Qed.

Lemma Iter_stuck moving (R : nat → caps → nat → caps → Prop) lo i c j c' :
  Iter moving R lo i c j c' → (∀ c j c', R i c j c' → j = i) → j = i.
Proof.
  induction 1 as [|lo i c j c' j' c'' Hm H1 H2 IH]; intros HR; [done|].
  apply HR in H1 as ->. by apply IH.
Qed.

(** The header of an opening line cannot start with a fence character: at
    such a character it matches the empty text only. *)
Lemma header_stuck s i c j c' a :
  Matches s HEADER i c j c' →
  s !! i = Some a → a = "`"%char ∨ a = "~"%char → j = i.
Proof.
  unfold HEADER, Opt, Star, LazyStar, Lit. cbn [Derives].
  intros (c0 & [HA|HB] & _) Ha Hch.
  - destruct HA as (c1 & (m & cm & (a' & Ha' & Heq & _) & _) & _).
    rewrite Ha in Ha'. simplify_eq. destruct Hch as [-> | ->]; by vm_compute in Heq.
  - destruct HB as (m & cm & Hopt & c1 & Hit & _).
    assert (m = i) as ->.
    { destruct Hopt as [(c2 & (m0 & cm0 & Hdot & m1 & cm1 & (c3 & Hlang & _) & Hsp) & _)|[-> _]];
        [|done].
      destruct Hdot as [(a' & Ha' & Heq & _)|[-> ->]].
      { rewrite Ha in Ha'. simplify_eq. destruct Hch as [-> | ->]; by vm_compute in Heq. }
      apply (Iter_Char s false lang_char) in Hlang as (_ & Hle1 & Hall1).
      apply (Iter_Char s false (eqc " ")) in Hsp as (_ & Hle2 & Hall2).
      destruct (decide (i < m1)) as [Hlt|Hge].
      { specialize (Hall1 i ltac:(lia)). rewrite Ha in Hall1. simpl in Hall1.
        destruct Hch as [-> | ->]; by vm_compute in Hall1. }
      assert (m1 = i) as -> by lia.
      destruct (decide (i < m)) as [Hlt|Hge'].
      { specialize (Hall2 i ltac:(lia)). rewrite Ha in Hall2. simpl in Hall2.
        destruct Hch as [-> | ->]; by vm_compute in Hall2. }
      lia. }
    eapply Iter_stuck in Hit; [done|].
    intros c2 j2 c2' [Hkv|[-> _]]; [|done].
    destruct Hkv as (m0 & cm0 & (_ & -> & _) & m1 & cm1 & (a' & Ha' & Halpha & _) & _).
    rewrite Ha in Ha'. simplify_eq. destruct Hch as [-> | ->]; by vm_compute in Halpha.
Qed.

Lemma fenced_block_shape s i j c :
  Matches s FENCED_BLOCK_RE i no_caps j c →
  ∃ b q p ch, block_shape s i j c b q p ch.
Proof.
  unfold FENCED_BLOCK_RE, OPENING_FENCE, Star, LazyStar, Lit. cbn [Derives].
  intros (c9 & (b & c2 & (c1 & (i' & c0 & (Hbol & Hi' & Hc0) & Hrun) & Hc2) &
            b' & c3 & Hsp1 & q0 & c4 & Hhdr & q & c5 & Hnl & p & c6 &
            (c7 & Hbody & Hc6) & p' & c8 & (Hlb & Hp' & Hc8) & e & c10 &
            Hback & j' & c11 & Hsp2 & Heol & Hj & Hc9) & Hc).
  subst i' c0 p' c8 j' c9.
  apply (Iter_Char s false (eqc " ")) in Hsp1 as (Hc3 & Hbb' & Hsp1).
  apply (Iter_Char s false (eqc " ")) in Hsp2 as (Hc11 & Hle2 & Hspaces).
  destruct Hnl as (a & Ha & Hnl & Hq & Hc5).
  apply (holds_eqc _ (Some a)) in Hnl. subst q c5 c3 c11.
  apply (Iter_Char s false any) in Hbody as (Hc7 & Hqp & _). subst c7.
  destruct Hback as (x & y & Hg2 & Hslice & Hlen & He & Hc10). subst e c10.
  assert (Hc1 : c1 = no_caps ∧ ∃ ch, (ch = "`"%char ∨ ch = "~"%char) ∧ i + 3 ≤ b ∧
                        ∀ k, i ≤ k < b → s !! k = Some ch).
  { destruct Hrun as [Hrun|Hrun].
    - apply (Iter_Char s false (eqc "~")) in Hrun as (? & ? & Hall). split; [done|].
      exists "~"%char. split; [by right|]. split; [done|].
      intros k Hk. by apply holds_eqc, Hall.
    - apply (Iter_Char s false (eqc "`")) in Hrun as (? & ? & Hall). split; [done|].
      exists "`"%char. split; [by left|]. split; [done|].
      intros k Hk. by apply holds_eqc, Hall. }
  destruct Hc1 as (-> & ch & Hch & Hb & Hopen).
  assert (Hc42 : c4 2 = Some (i, b)).
  { rewrite (Matches_caps s HEADER b' c2 q0 c4 2); [| |done].
    - subst c2. unfold set_cap. by case_decide.
    - vm_compute. intros H'. repeat (apply elem_of_cons in H' as [H'|H']; [done|]).
      by apply elem_of_nil in H'. }
  assert (Hxy : x = i ∧ y = b).
  { subst c6. unfold set_cap in Hg2. case_decide; [done|].
    rewrite Hc42 in Hg2. by simplify_eq. }
  destruct Hxy as [-> ->].
  assert (Hend : ∀ a', s !! b = Some a' → ¬ (a' = "`"%char ∨ a' = "~"%char)).
  { intros a' Hb' Hfc.
    assert (b' = b) as ->.
    { destruct (decide (b < b')) as [Hlt|]; [|lia].
      specialize (Hsp1 b ltac:(lia)). rewrite Hb' in Hsp1. simpl in Hsp1.
      destruct Hfc as [-> | ->]; by vm_compute in Hsp1. }
    apply (header_stuck s b c2 q0 c4 a') in Hhdr as ->; [|done|done].
    rewrite Hb' in Ha. simplify_eq. by destruct Hfc. }
  apply Matches_le in Hhdr.
  exists b, (S q0), p, ch. split; try done.
  - split; [lia|]. replace (S q0 - 1) with q0 by lia. by simplify_eq.
  - split; [lia|]. by apply holds_eqc.
  - split; [lia|]. destruct (decide (j = p + (b - i))) as [->|]; [done|].
    assert (Hlast : holds (eqc " ") (s !! (j - 1)) = true) by (apply Hspaces; lia).
    destruct (s !! (j - 1)) eqn:E; [|done]. apply lookup_lt_Some in E. lia.
  - intros k Hk. by apply holds_eqc, Hspaces.
  - subst c. unfold set_cap at 1. by case_decide.
  - subst c c6. unfold set_cap. repeat case_decide; try done.
  - subst c c6. unfold set_cap. repeat case_decide; try done.
Qed.

(** ** From matches to [Fence] records *)

Lemma text_chars (s : string) : text (chars s) = s.
Proof. apply String.string_of_list_ascii_of_string. Qed.

Lemma chars_text (l : list ascii) : chars (text l) = l.
Proof. apply String.list_ascii_of_string_of_list_ascii. Qed.

Lemma text_app (l1 l2 : list ascii) : text (l1 ++ l2) = text l1 +:+ text l2.
Proof. induction l1 as [|a l1 IH]; [done|]. simpl. by rewrite IH. Qed.

Lemma length_chars (s : string) : length (chars s) = String.length s.
Proof. induction s as [|a s IH]; [done|]. simpl. by rewrite IH. Qed.

Lemma text_inj (l1 l2 : list ascii) : text l1 = text l2 → l1 = l2.
Proof. intros H. by rewrite <-(chars_text l1), <-(chars_text l2), H. Qed.

(** The text splits around any slice of it. *)
Lemma split_around_slice (doc : string) (a b : nat) :
  a ≤ b →
  doc = text (take a (chars doc)) +:+ substr doc a b +:+ text (drop b (chars doc)).
Proof.
  intros Hab. unfold substr, slice. rewrite <-!text_app.
  rewrite <-(text_chars doc) at 1. f_equal.
  rewrite <-(take_drop a (chars doc)) at 1. f_equal.
  rewrite <-(take_drop (b - a) (drop a (chars doc))) at 1. f_equal.
  rewrite drop_drop. f_equal. lia.
Qed.

Lemma scan_match_at r s fuel : ∀ i m,
  m ∈ scan fuel r s i → match_at r s (m_start m) = Some m ∧ i ≤ m_start m.
Proof.
  induction fuel as [|fuel IH]; intros i m Hm; simpl in Hm.
  { by apply elem_of_nil in Hm. }
  case_decide; [by apply elem_of_nil in Hm|].
  destruct (match_at r s i) as [m0|] eqn:H0.
  - apply elem_of_cons in Hm as [->|Hm].
    + apply match_at_sound in H0 as Hs. destruct Hs as [-> _]. done.
    + apply IH in Hm as [? Hle]. split; [done|].
      apply match_at_sound in H0 as [_ Hs]. apply Matches_le in Hs.
      case_decide; lia.
  - apply IH in Hm as [? ?]. split; [done|lia].
Qed.

(** The scan has fuel enough: more of it finds the same matches. *)
Lemma scan_fuel r s : ∀ fuel1 fuel2 i,
  length s + 2 - i ≤ fuel1 → length s + 2 - i ≤ fuel2 →
  scan fuel1 r s i = scan fuel2 r s i.
Proof.
  induction fuel1 as [|fuel1 IH]; intros fuel2 i H1 H2.
  { destruct fuel2 as [|fuel2]; [done|]. simpl. rewrite decide_True by lia. done. }
  destruct fuel2 as [|fuel2].
  { simpl. rewrite decide_True by lia. done. }
  simpl. case_decide; [done|].
  destruct (match_at r s i) as [m|] eqn:Hm.
  - f_equal. apply match_at_sound in Hm as [_ Hs]. apply Matches_le in Hs.
    apply IH; case_decide; lia.
  - apply IH; lia.
Qed.

Lemma finditer_fuel r doc extra :
  scan (String.length doc + 2 + extra) r (chars doc) 0 = finditer r doc.
Proof. unfold finditer. apply scan_fuel; rewrite length_chars; lia. Qed.

(** The matches of a scan follow one another: each one starts where the
    one before it ended, or later. *)
Lemma scan_ordered r s fuel : ∀ i,
  i ≤ length s →
  Sorted (λ m1 m2, m_end m1 ≤ m_start m2) (scan fuel r s i) ∧
  Forall (λ m, i ≤ m_start m ∧ m_start m ≤ m_end m ≤ length s) (scan fuel r s i).
Proof.
  induction fuel as [|fuel IH]; intros i Hi; simpl; [by split; constructor|].
  case_decide; [by split; constructor|].
  destruct (match_at r s i) as [m|] eqn:Hm.
  - apply match_at_sound in Hm as [Hst Hs].
    pose proof (Matches_le _ _ _ _ _ _ Hs) as Hle.
    pose proof (Matches_bound _ _ _ _ _ _ Hi Hs) as Hb.
    set (next := if decide (m_end m = i) then S i else m_end m).
    destruct (decide (next ≤ length s)) as [Hn|Hn].
    + destruct (IH next Hn) as [IHs IHf]. split.
      * constructor; [done|].
        destruct (scan fuel r s next) as [|m' ms] eqn:E; constructor.
        apply Forall_cons in IHf as [[? ?] _]. subst next. case_decide; lia.
      * constructor; [lia|]. eapply Forall_impl; [exact IHf|].
        intros m' [? ?]. split; [|done]. subst next. case_decide; lia.
    + assert (scan fuel r s next = []) as ->.
      { destruct fuel; [done|]. simpl. by rewrite decide_True by lia. }
      split; repeat constructor; lia.
  - destruct (decide (S i ≤ length s)) as [Hn|Hn].
    + destruct (IH (S i) Hn) as [IHs IHf]. split; [done|].
      eapply Forall_impl; [exact IHf|]. intros m' [? ?]. split; [lia|done].
    + assert (scan fuel r s (S i) = []) as ->.
      { destruct fuel; [done|]. simpl. by rewrite decide_True by lia. }
      split; constructor.
Qed.

Lemma finditer_ordered r doc :
  Sorted (λ m1 m2, m_end m1 ≤ m_start m2) (finditer r doc) ∧
  Forall (λ m, m_start m ≤ m_end m ≤ String.length doc) (finditer r doc).
Proof.
  destruct (scan_ordered r (chars doc) (String.length doc + 2) 0 ltac:(lia)) as [Hs Hf].
  split; [done|]. eapply Forall_impl; [exact Hf|].
  intros m [_ ?]. by rewrite <-length_chars.
Qed.

Lemma finditer_match_at r doc m :
  m ∈ finditer r doc → match_at r (chars doc) (m_start m) = Some m.
Proof. intros H. by apply scan_match_at in H as [? _]. Qed.

Lemma from_re_groups_findall_item doc m :
  from_re_groups (findall_item 10 doc m) = Ok (fence_of_match doc m).
Proof. reflexivity. Qed.

Lemma collect_total {A B} (f : A → result B) (g : A → B) (l : list A) :
  (∀ a, f a = Ok (g a)) → collect f l = Ok (map g l).
Proof. intros H. induction l as [|a l IH]; [done|]. simpl. by rewrite H, IH. Qed.

(** [grab_fences] raises nothing: it returns one record for each match. *)
Lemma grab_fences_eq doc :
  grab_fences doc = Ok (map (fence_of_match doc) (finditer FENCED_BLOCK_RE doc)).
Proof.
  unfold grab_fences, findall.
  induction (finditer FENCED_BLOCK_RE doc) as [|m ms IH]; [done|].
  cbn [map collect]. rewrite from_re_groups_findall_item. cbn [bind].
  rewrite IH. done.
Qed.

(** ** Extracted blocks *)

Lemma slice_app {A} (l : list A) (a b c : nat) :
  a ≤ b → b ≤ c → slice a c l = slice a b l ++ slice b c l.
Proof.
  intros Hab Hbc. unfold slice.
  replace (drop b l) with (drop (b - a) (drop a l)) by (rewrite drop_drop; f_equal; lia).
  rewrite take_take_drop. f_equal. lia.
Qed.

Lemma Forall2_map_elem {A B} (P : A → B → Prop) (g : A → B) (l : list A) :
  (∀ x, x ∈ l → P x (g x)) → Forall2 P l (map g l).
Proof.
  induction l as [|a l IH]; intros H; [constructor|].
  simpl. constructor; [apply H; left|]. apply IH. intros x Hx. apply H. by right.
Qed.

Lemma finditer_shape doc m :
  m ∈ finditer FENCED_BLOCK_RE doc →
  ∃ b q p ch, block_shape (chars doc) (m_start m) (m_end m) (m_caps m) b q p ch.
Proof.
  intros Hm. apply finditer_match_at, match_at_sound in Hm as [_ HM].
  by apply fenced_block_shape.
Qed.

Lemma slice_one {A} (l : list A) (k : nat) (x : A) :
  l !! k = Some x → slice k (S k) l = [x].
Proof.
  intros H. unfold slice. replace (S k - k) with 1 by lia.
  rewrite (drop_S l x k H). done.
Qed.

(** C7. Round trip: each record that [grab_fences] returns has in [raw],
    character for character, the part of the document that the pattern
    matched for it: the document is the text before it, [raw], and the text
    after, and [raw] is the opening line, the body and the closing line. *)
Theorem raw_is_the_matched_text (doc : string) :
  ∃ fs, grab_fences doc = Ok fs ∧
    Forall2 (λ m f,
               raw f = Some (substr doc (m_start m) (m_end m)) ∧
               m_start m ≤ m_end m ≤ String.length doc ∧
               (∃ before after,
                  String.length before = m_start m ∧
                  doc = before +:+ substr doc (m_start m) (m_end m) +:+ after) ∧
               marker_lines_and_body doc m f)
            (finditer FENCED_BLOCK_RE doc) fs.
Proof.
  eexists. split; [apply grab_fences_eq|].
  apply Forall2_map_elem. intros m Hm.
  destruct (finditer_shape doc m Hm) as (b & q & p & ch & Hs).
  destruct m as [i j c]. simpl in Hs. cbn [m_start m_end].
  destruct Hs. destruct shape_header_end0 as [Hbq Hq]. destruct shape_body0 as [Hqp Hp].
  destruct shape_closing_end0 as [Hpj Hj].
  assert (i ≤ j ≤ String.length doc) as Hle.
  { rewrite <-length_chars. lia. }
  split; [|split; [done|split]].
  - unfold fence_of_match, group; simpl. by rewrite shape_raw0.
  - exists (text (take i (chars doc))), (text (drop j (chars doc))).
    split; [|apply split_around_slice; lia].
    rewrite <-length_chars, chars_text, length_take, length_chars. lia.
  - exists (substr doc i b), (substr doc b (q - 1)), (substr doc q p),
           (substr doc (p + (b - i)) j).
    split. { unfold fence_of_match, group; simpl. by rewrite shape_fence0. }
    split. { unfold fence_of_match, group; simpl. by rewrite shape_code0. }
    unfold substr, nl. rewrite <-shape_closing0 at 2.
    change (String "010" "") with (text ["010"%char]).
    rewrite <-!text_app. f_equal.
    rewrite <-(slice_one (chars doc) (q - 1) _ Hq).
    replace (S (q - 1)) with q by lia.
    rewrite <-(slice_app _ p (p + (b - i)) j) by lia.
    rewrite <-(slice_app _ q p j) by lia.
    rewrite <-(slice_app _ (q - 1) q j) by lia.
    rewrite <-(slice_app _ b (q - 1) j) by lia.
    by rewrite <-(slice_app _ i b j) by lia.
Qed.

(** ** The header sub-parser *)

Lemma od_keys_set {V} (k : string) (v : V) (d : odict V) :
  od_keys (od_set k v d) = if decide (k ∈ od_keys d) then od_keys d else od_keys d ++ [k].
Proof.
  induction d as [|[k' v'] d IH]; simpl.
  - destruct (decide (k ∈ [])) as [H|H]; [by apply elem_of_nil in H|done].
  - destruct (decide (k' = k)) as [->|Hne]; simpl.
    + destruct (decide (k ∈ k :: od_keys d)) as [H|H]; [done|]. exfalso. apply H. left.
    + rewrite IH. destruct (decide (k ∈ od_keys d)) as [Hin|Hnin].
      * rewrite decide_True by (by right). done.
      * rewrite decide_False; [done|]. intros [?|?]%elem_of_cons; by subst.
Qed.

Lemma od_get_set {V} (k k' : string) (v : V) (d : odict V) :
  od_get k' (od_set k v d) = if decide (k' = k) then Some v else od_get k' d.
Proof.
  induction d as [|[k0 v0] d IH]; simpl.
  - destruct (decide (k = k')), (decide (k' = k)); by subst.
  - destruct (decide (k0 = k)) as [->|Hne]; simpl.
    + destruct (decide (k = k')), (decide (k' = k)); by subst.
    + rewrite IH. destruct (decide (k0 = k')), (decide (k' = k)); by subst.
Qed.

Lemma od_get_app_None {V} (k : string) (d1 d2 : odict V) :
  od_get k (d1 ++ d2) = match od_get k d1 with Some v => Some v | None => od_get k d2 end.
Proof.
  induction d1 as [|[k0 v0] d1 IH]; simpl; [done|]. by case_decide.
Qed.

Lemma attrs_loop_tokens fuel : ∀ raw acc,
  attrs_loop fuel raw acc = fold_left store (attr_tokens fuel raw) acc.
Proof.
  induction fuel as [|fuel IH]; intros raw acc; simpl; [done|].
  case_decide; [done|].
  destruct (attr_token raw) as [[[name a] e]|]; [|done].
  simpl. by rewrite IH.
Qed.

Lemma filter_not_in_snoc (k : string) (K D : list string) :
  filter (λ x, x ∉ K ++ [k]) D = filter (λ x, x ∉ K) (filter (λ x, x ≠ k) D).
Proof.
  induction D as [|x D IH]; [done|].
  rewrite !filter_cons.
  destruct (decide (x ∉ K ++ [k])) as [H|H];
    rewrite not_elem_of_app, not_elem_of_cons in H.
  - destruct H as [HK [Hk _]]. rewrite decide_True by done.
    rewrite filter_cons, decide_True by done. by rewrite IH.
  - destruct (decide (x ≠ k)) as [Hk|Hk]; [|done].
    rewrite filter_cons. destruct (decide (x ∉ K)) as [HK|HK]; [|done].
    exfalso. apply H. split; [done|]. split; [done|]. apply not_elem_of_nil.
Qed.

Lemma filter_all (P : string → Prop) `{!∀ x, Decision (P x)} (l : list string) :
  (∀ x, P x) → filter P l = l.
Proof.
  intros HP. induction l as [|x l IH]; [done|].
  by rewrite filter_cons_True, IH.
Qed.

Lemma keys_fold_store {V} (toks : list (string * V)) : ∀ acc,
  od_keys (fold_left store toks acc)
  = od_keys acc ++ filter (λ x, x ∉ od_keys acc) (dedup_first (map fst toks)).
Proof.
  induction toks as [|[k v] toks IH]; intros acc.
  { simpl. by rewrite app_nil_r. }
  cbn [fold_left map fst dedup_first]. rewrite IH.
  replace (store acc (k, v)) with (od_set k v acc) by done.
  rewrite (od_keys_set k v acc).
  set (D := dedup_first (map fst toks)).
  destruct (decide (k ∈ od_keys acc)) as [Hin|Hnin].
  - f_equal. rewrite filter_cons_False by (intros H; by apply H).
    symmetry. apply list_filter_filter_l. intros x Hx ->. done.
  - rewrite filter_cons_True by done. rewrite <-app_assoc. simpl. do 2 f_equal.
    apply filter_not_in_snoc.
Qed.

Lemma get_fold_store {V} (k : string) (toks : list (string * V)) : ∀ acc,
  od_get k (fold_left store toks acc)
  = match od_get k (rev toks) with Some v => Some v | None => od_get k acc end.
Proof.
  induction toks as [|[k0 v0] toks IH]; intros acc; simpl; [done|].
  rewrite IH, od_get_app_None. destruct (od_get k (rev toks)); [done|].
  unfold store. simpl. rewrite od_get_set.
  destruct (decide (k0 = k)), (decide (k = k0)); by subst.
Qed.

(** C6, as the code has it. In the mapping that [attrs_from_str] returns,
    each name stands once, at the place of its first token, and holds the
    whole entry, value and kind, that its last token stored. *)
Theorem attrs_from_str_repeated_name (raw : option string) :
  od_keys (attrs_from_str raw) = dedup_first (map fst (tokens_of raw)) ∧
  ∀ name, od_get name (attrs_from_str raw) = od_get name (rev (tokens_of raw)).
Proof.
  destruct raw as [raw|]; simpl; [|done].
  rewrite attrs_loop_tokens. split.
  - rewrite keys_fold_store. simpl. apply filter_all.
    intros x. apply not_elem_of_nil.
  - intros name. rewrite get_fold_store. simpl. by destruct (od_get _ _).
Qed.

(** ** The loops of the header sub-parsers have fuel enough *)

(** A match of [CLASS_RE] or [ID_RE] takes its mark and a name of at least
    one character, which is group 1. *)
Lemma marked_name_shape (mark : ascii) s i j c :
  Matches s (Star (Char blank) >> Lit mark >>
             Group 1 (Char alpha >> Star (Char name_char)) >>
             Star (Char blank))%re i no_caps j c →
  i < j ∧ ∃ x y, c 1 = Some (x, y) ∧ x < y.
Proof.
  unfold Star, Lit. cbn [Derives].
  intros (m1 & c1 & Hsp1 & m2 & c2 & (a & Ha & _ & Hm2 & Hc2) & m3 & c3 &
          (c4 & (m4 & c5 & (a' & Ha' & _ & Hm4 & Hc5) & Hname) & Hc3) & Hsp2).
  apply (Iter_Char s false blank) in Hsp1 as (_ & Hle1 & _).
  apply (Iter_Char s false name_char) in Hname as (Hc4 & Hle2 & _).
  apply (Iter_Char s false blank) in Hsp2 as (Hc & Hle3 & _).
  subst. split; [lia|]. eexists _, _. split.
  - unfold set_cap. rewrite decide_True by done. reflexivity.
  - lia.
Qed.

(** A match of [KEY_VAL_RE] takes a key of at least one character, which is
    group 1. *)
Lemma key_val_shape s i j c :
  Matches s KEY_VAL_RE i no_caps j c →
  i < j ∧ ∃ x y, c 1 = Some (x, y) ∧ x < y.
Proof.
  unfold KEY_VAL_RE, Opt, Star, LazyStar, Lit. cbn [Derives].
  intros (m1 & c1 & Hsp1 & m2 & c2 &
          (c3 & (m3 & c4 & (_ & Hm3 & Hc4) & m4 & c5 & (a & Ha & _ & Hm4 & Hc5) & Hkey) & Hc2) &
          m5 & c6 & Hopt & Hsp2).
  apply (Iter_Char s false blank) in Hsp1 as (Hc1 & Hle1 & _).
  apply (Iter_Char s false key_char) in Hkey as (Hc3 & Hle2 & _).
  apply (Iter_Char s false blank) in Hsp2 as (Hc & Hle3 & _).
  assert (m2 ≤ m5 ∧ c6 1 = c2 1) as [Hle4 Hg].
  { destruct Hopt as [Hval|[-> ->]]; [|done].
    destruct Hval as (m6 & c7 & (a1 & _ & _ & Hm6 & Hc7) & m7 & c8 &
                      (c9 & (a2 & _ & _ & Hm7 & Hc9) & Hc8) & m8 & c10 &
                      (c11 & Hany & Hc10) & x & y & _ & _ & _ & Hm5 & Hc6).
    apply (Iter_Char s false any) in Hany as (Hc11 & Hle5 & _).
    subst m6 c7 m7 c9 c8 c11 c10 m5 c6.
    split; [lia|]. unfold set_cap. by rewrite !decide_False by done. }
  subst m3 c4 m4 c5 c3 c1 c.
  split; [lia|]. exists m1, m2. split; [|lia].
  rewrite Hg, Hc2. unfold set_cap. by rewrite decide_True.
Qed.

Lemma re_match_shape r raw m :
  (∀ s i j c, Matches s r i no_caps j c → i < j ∧ ∃ x y, c 1 = Some (x, y) ∧ x < y) →
  re_match r raw = Some m →
  0 < m_end m ≤ String.length raw ∧ is_Some (group raw m 1).
Proof.
  intros Hshape Hm. apply match_at_sound in Hm as [Hi HM].
  pose proof (Matches_bound (chars raw) r 0 _ _ _ ltac:(lia) HM) as Hb.
  apply Hshape in HM as (Hlt & x & y & Hg & _).
  rewrite length_chars in Hb. split; [lia|]. unfold group. rewrite Hg. by eexists.
Qed.

Lemma CLASS_RE_match raw m :
  re_match CLASS_RE raw = Some m →
  0 < m_end m ≤ String.length raw ∧ is_Some (group raw m 1).
Proof. apply re_match_shape. intros. by eapply marked_name_shape. Qed.

Lemma ID_RE_match raw m :
  re_match ID_RE raw = Some m →
  0 < m_end m ≤ String.length raw ∧ is_Some (group raw m 1).
Proof. apply re_match_shape. intros. by eapply marked_name_shape. Qed.

Lemma KEY_VAL_RE_match raw m :
  re_match KEY_VAL_RE raw = Some m →
  0 < m_end m ≤ String.length raw ∧ is_Some (group raw m 1).
Proof. apply re_match_shape. intros. by eapply key_val_shape. Qed.

(** A token takes at least one character of the header, and a token is
    found whenever one of the three patterns matches. *)
Lemma attr_token_progress raw name a e :
  attr_token raw = Some (name, a, e) → 0 < e ≤ String.length raw.
Proof.
  unfold attr_token. intros H.
  destruct (re_match CLASS_RE raw) as [m|] eqn:H1.
  { apply CLASS_RE_match in H1 as [? [k Hk]]. rewrite Hk in H. by simplify_eq. }
  destruct (re_match ID_RE raw) as [m|] eqn:H2.
  { apply ID_RE_match in H2 as [? [k Hk]]. rewrite Hk in H. by simplify_eq. }
  destruct (re_match KEY_VAL_RE raw) as [m|] eqn:H3; [|done].
  apply KEY_VAL_RE_match in H3 as [? [k Hk]]. rewrite Hk in H. by simplify_eq.
Qed.

Lemma attr_token_None raw :
  attr_token raw = None →
  re_match CLASS_RE raw = None ∧ re_match ID_RE raw = None ∧
  re_match KEY_VAL_RE raw = None.
Proof.
  unfold attr_token. intros H.
  destruct (re_match CLASS_RE raw) as [m|] eqn:H1.
  { apply CLASS_RE_match in H1 as [? [k Hk]]. by rewrite Hk in H. }
  destruct (re_match ID_RE raw) as [m|] eqn:H2.
  { apply ID_RE_match in H2 as [? [k Hk]]. by rewrite Hk in H. }
  destruct (re_match KEY_VAL_RE raw) as [m|] eqn:H3; [|done].
  apply KEY_VAL_RE_match in H3 as [? [k Hk]]. by rewrite Hk in H.
Qed.

Lemma length_text (l : list ascii) : String.length (text l) = length l.
Proof. induction l as [|a l IH]; [done|]. simpl. by rewrite IH. Qed.

Lemma length_str_drop n raw : String.length (str_drop n raw) = String.length raw - n.
Proof. unfold str_drop. by rewrite length_text, length_drop, length_chars. Qed.

Lemma empty_length raw : String.length raw = 0 → raw = ""%string.
Proof. by destruct raw. Qed.

Lemma attrs_loop_fuel : ∀ fuel1 fuel2 raw acc,
  String.length raw ≤ fuel1 → String.length raw ≤ fuel2 →
  attrs_loop fuel1 raw acc = attrs_loop fuel2 raw acc.
Proof.
  assert (H0 : ∀ fuel raw acc, raw = ""%string → attrs_loop fuel raw acc = acc).
  { by intros [|fuel] raw acc ->. }
  induction fuel1 as [|fuel1 IH]; intros fuel2 raw acc H1 H2.
  { rewrite (H0 fuel2) by (apply empty_length; lia). done. }
  destruct fuel2 as [|fuel2].
  { rewrite (H0 (S fuel1)) by (apply empty_length; lia). done. }
  simpl. case_decide; [done|].
  destruct (attr_token raw) as [[[name a] e]|] eqn:Ht; [|done].
  apply attr_token_progress in Ht.
  apply IH; rewrite length_str_drop; lia.
Qed.

Lemma options_loop_fuel : ∀ fuel1 fuel2 raw acc,
  String.length raw ≤ fuel1 → String.length raw ≤ fuel2 →
  options_loop fuel1 raw acc = options_loop fuel2 raw acc.
Proof.
  assert (H0 : ∀ fuel raw acc, raw = ""%string → options_loop fuel raw acc = acc).
  { by intros [|fuel] raw acc ->. }
  induction fuel1 as [|fuel1 IH]; intros fuel2 raw acc H1 H2.
  { rewrite (H0 fuel2) by (apply empty_length; lia). done. }
  destruct fuel2 as [|fuel2].
  { rewrite (H0 (S fuel1)) by (apply empty_length; lia). done. }
  simpl. case_decide; [done|].
  destruct (re_match KEY_VAL_RE raw) as [m|] eqn:Hm; [|done].
  apply KEY_VAL_RE_match in Hm as [? [k Hk]]. rewrite Hk.
  apply IH; rewrite length_str_drop; lia.
Qed.

(** With any more fuel the two sub-parsers return the same mapping. *)
Theorem header_parsers_fuel raw extra :
  attrs_loop (String.length raw + extra) raw [] = attrs_from_str (Some raw) ∧
  options_loop (String.length raw + extra) raw [] = options_from_str (Some raw).
Proof. split; [apply attrs_loop_fuel|apply options_loop_fuel]; lia. Qed.

(** ** The registry and the check entry points *)

Section ExecutorFacts.

Context (rt : runtime).

(** C1. After the module is loaded the registry holds [python], [py],
    [bash], [yaml], [yml] and [toml], and nothing under the empty tag: the
    registry that held it was replaced by an empty one (line 384), so
    [check_docstring] with its default tag raises the unsupported-language
    error. *)
Theorem default_tag_is_not_registered (doc : option string) :
  _executors module_init !! "python"%string = Some ExecPythonFence ∧
  _executors module_init !! "py"%string = Some ExecPythonFence ∧
  _executors module_init !! "bash"%string = Some ExecBashFence ∧
  _executors module_init !! "yaml"%string = Some ExecFileFence ∧
  _executors module_init !! "yml"%string = Some ExecFileFence ∧
  _executors module_init !! "toml"%string = Some ExecFileFence ∧
  _executors module_init !! ""%string = None ∧
  check_docstring rt doc "" module_init = (module_init, Raise (unsupported "")).
Proof. repeat split; vm_compute; reflexivity. Qed.

(** C8. A tag that the registry does not hold makes each check entry point
    raise [LookupError] before anything else is done; the message starts
    with the tag and ends with a hint that names the registration
    function. *)
Theorem unregistered_tag_raises_LookupError (lang : string) (w : world) :
  _executors w !! lang = None →
  (∀ doc, check_docstring rt doc lang w = (w, Raise (unsupported lang))) ∧
  (∀ raw, check_raw_string rt raw lang w = (w, Raise (unsupported lang))) ∧
  (∀ raw, check_raw_file_full rt raw lang w = (w, Raise (unsupported lang))) ∧
  (∀ file_text memory,
     check_md_file rt file_text memory lang w = (w, Raise (unsupported lang))) ∧
  ∃ middle,
    unsupported lang = LookupError (lang +:+ middle +:+ "register_executor") ∧
    occurs_in (chars "Hint") (chars middle) = true.
Proof.
  intros H. unfold check_md_file, check_docstring, check_raw_string, check_raw_file_full.
  rewrite H. repeat split; try done.
  - by intros ? [].
  - exists (" is not a supported language to check" +:+
            String "010" (String "009"
              "Hint: you can add support for any language by using ")).
    split; [|vm_compute; reflexivity].
    unfold unsupported. do 2 f_equal.
Qed.

Lemma for_each_dispatched (e : executor) (blocks : list Fence) :
  ∀ w, dispatched rt e blocks w (for_each rt e blocks w).
Proof.
  induction blocks as [|b blocks IH]; intros w; cbn [for_each]; [constructor|].
  destruct (call rt e (VFence b) w) as [w' [[]|err]] eqn:Hb.
  - eapply dispatched_next; [exact Hb|apply IH].
  - eapply dispatched_stop. exact Hb.
Qed.

(** C5. Whatever the keyword arguments, [grab_code_blocks] returns the
    records of [grab_fences], one for each match of the pattern with none
    left out for its language, and a check with a registered tag dispatches
    these records, all of them and in their order, to the executor of the
    tag: the executor is called on each one, whatever its own language,
    until a call raises. *)
Theorem grab_code_blocks_ignores_lang (docstring : string) (kwargs : odict (option string))
  (lang : string) (e : executor) (w : world) :
  _executors w !! lang = Some e →
  ∃ fs,
    grab_fences docstring = Ok fs ∧
    grab_code_blocks docstring kwargs = Ok fs ∧
    fs = map (fence_of_match docstring) (finditer FENCED_BLOCK_RE docstring) ∧
    dispatched rt e fs w (check_raw_string rt docstring lang w) ∧
    dispatched rt e fs w (check_docstring rt (Some docstring) lang w) ∧
    dispatched rt e fs w (check_md_file rt docstring false lang w).
Proof.
  intros Hreg. eexists. split; [apply grab_fences_eq|].
  split; [apply grab_fences_eq|]. split; [done|].
  assert (Hc : check_raw_string rt docstring lang w
               = for_each rt e (map (fence_of_match docstring)
                                    (finditer FENCED_BLOCK_RE docstring)) w).
  { unfold check_raw_string, grab_code_blocks. by rewrite Hreg, grab_fences_eq. }
  assert (Hd : check_docstring rt (Some docstring) lang w
               = check_raw_string rt docstring lang w) by done.
  assert (Hm : check_md_file rt docstring false lang w
               = check_raw_string rt docstring lang w) by done.
  rewrite Hm, Hd, Hc. repeat split; apply for_each_dispatched.
Qed.

(** Every executor of the module reads an attribute of what it is given,
    which a [str] does not have. *)
Lemma call_on_str (e : executor) (all_code : string) (w : world) :
  ∃ msg, call rt e (VStr all_code) w = (w, Raise (AttributeError msg)).
Proof. destruct e; eexists; reflexivity. Qed.

(** C3. What [check_raw_file_full] does for a registered tag: it joins the
    texts of the records into one [str] and calls the executor once on that
    [str]; every executor of the module then raises [AttributeError], no
    block is executed, and the state is as before. *)
Theorem cumulative_mode_raises_AttributeError (raw lang : string) (e : executor) (w : world) :
  _executors w !! lang = Some e →
  ∃ msg,
    check_raw_file_full rt raw lang w = (w, Raise (AttributeError msg)) ∧
    check_md_file rt raw true lang w = (w, Raise (AttributeError msg)).
Proof.
  intros H. unfold check_md_file. simpl. unfold check_raw_file_full.
  rewrite H. unfold grab_code_blocks. rewrite grab_fences_eq.
  destruct (call_on_str e
    (fold_left (λ all_code b, all_code +:+ String "010" (format_fence rt b))
       (map (fence_of_match raw) (finditer FENCED_BLOCK_RE raw)) ""%string) w) as [msg Hm].
  exists msg. by rewrite Hm.
Qed.

Lemma exec_python_fence_no_title (f : Fence) (w : world) :
  no_title f →
  exec_python_fence rt (VFence f) w = exec_in_default_globals rt (contents f) w.
Proof.
  intros (o & a & Ho & Ha & Hno & Hna).
  unfold exec_python_fence. simpl. rewrite Ho, Ha. simpl. rewrite Hno, Hna. simpl.
  by destruct (exec_in_default_globals rt (contents f) w).
Qed.

(** C2. What independent mode does with two python blocks: the second block
    is executed in the namespace that the first one left, with all that
    the first one bound, because both calls of [exec_python_fence] use the
    one dictionary that is the default of [globals]. *)
Theorem independent_mode_shares_the_namespace (raw : string) (f1 f2 : Fence) (w : world)
  (g1 : gmap string pyval) :
  _executors w !! "python"%string = Some ExecPythonFence →
  grab_fences raw = Ok [f1; f2] →
  no_title f1 → no_title f2 →
  py_exec rt (contents f1) (python_fence_globals w) = (g1, None) →
  check_raw_string rt raw "python" w
  = exec_in_default_globals rt (contents f2) (set_python_fence_globals g1 w) ∧
  check_md_file rt raw false "python" w
  = exec_in_default_globals rt (contents f2) (set_python_fence_globals g1 w).
Proof.
  intros Hreg Hgrab Hf1 Hf2 Hexec.
  assert (check_raw_string rt raw "python" w
          = exec_in_default_globals rt (contents f2) (set_python_fence_globals g1 w)) as Hc.
  { unfold check_raw_string. rewrite Hreg. unfold grab_code_blocks. rewrite Hgrab.
    cbn [for_each call]. rewrite (exec_python_fence_no_title f1) by done.
    unfold exec_in_default_globals at 1. rewrite Hexec.
    rewrite (exec_python_fence_no_title f2) by done.
    destruct (exec_in_default_globals _ _ _) as [w' [[]|err]]; done. }
  split; [done|]. unfold check_md_file. simpl. done.
Qed.

(** C9, as the code has it. Without an option and without an attribute
    named [title], [exec_file_fence] raises the [TypeError] of an [open]
    whose file name is [None], which does not name [title], and writes
    nothing. With an option [title] whose value is not empty, or else an
    attribute [title] whose value is not empty, and when the system lets
    that file be opened, the contents are written as they are to the file of
    that name. *)
Theorem exec_file_fence_title (f : Fence) (w : world)
  (o : odict (option string)) (a : odict Attr) :
  options f = Some o → attrs f = Some a →
  (od_get "title" o = None → od_get "title" a = None →
   ∃ e, exec_file_fence rt (VFence f) w = (w, Raise e) ∧
        e = TypeError "expected str, bytes or os.PathLike object, not NoneType" ∧
        mentions "title" e = false) ∧
  (∀ name,
     name ≠ ""%string → openable rt name = true →
     od_get "title" o = Some (Some name) ∨
     (truthy (default None (od_get "title" o)) = false ∧
      value <$> od_get "title" a = Some (Some name)) →
     exec_file_fence rt (VFence f) w = (write_file name (contents f) w, Ok ()) ∧
     files (write_file name (contents f) w) !! name = Some (contents f)).
Proof.
  intros Ho Ha. split.
  - intros Hno Hna. eexists. split; [|split; [reflexivity|by vm_compute]].
    unfold exec_file_fence. simpl. rewrite Ho, Ha. simpl. rewrite Hno, Hna. done.
  - intros name Hne Hopen Htitle.
    split; [|apply lookup_insert_eq].
    unfold exec_file_fence. simpl. rewrite Ho, Ha. simpl.
    destruct Htitle as [Ht|[Hfalse Ht]].
    + rewrite Ht. simpl. rewrite bool_decide_eq_false_2 by done. simpl.
      unfold open_write. rewrite decide_False by done. by rewrite Hopen.
    + rewrite Hfalse. destruct (od_get "title" a) as [x|]; [|done].
      simpl in Ht. simplify_eq. simpl. rewrite Ht.
      unfold open_write. rewrite decide_False by done. by rewrite Hopen.
Qed.

End ExecutorFacts.

(** ** [Fence.from_str] *)

Lemma re_match_starts_with_marker (raw : string) (m : match_obj) :
  re_match FENCED_BLOCK_RE raw = Some m →
  ∃ ch rest, (ch = "`"%char ∨ ch = "~"%char) ∧
             raw = String ch (String ch (String ch rest)).
Proof.
  intros H. apply match_at_sound in H as [Hi HM].
  apply fenced_block_shape in HM as (b & q & p & ch & Hs).
  destruct m as [i j c]. simpl in *. subst i. destruct Hs.
  pose proof (shape_opening0 0 ltac:(lia)) as H0.
  pose proof (shape_opening0 1 ltac:(lia)) as H1.
  pose proof (shape_opening0 2 ltac:(lia)) as H2.
  exists ch. rewrite <-(text_chars raw).
  destruct (chars raw) as [|a0 [|a1 [|a2 rest]]]; try done.
  simpl in H0, H1, H2. simplify_eq. by exists (text rest).
Qed.

Lemma from_str_returns_on_match (md : string) (m : match_obj) :
  re_match FENCED_BLOCK_RE md = Some m →
  ∃ f, from_str md = Ok f ∧ raw f = Some (substr md 0 (m_end m)) ∧
       fence f = group md m 2.
Proof.
  intros H. unfold from_str. rewrite H.
  apply match_at_sound in H as [Hi HM].
  apply fenced_block_shape in HM as (b & q & p & ch & Hs).
  destruct m as [i j c]. simpl in *. subst i. destruct Hs.
  unfold from_re_groups, groups. cbn [seq map item lookup list_lookup bind].
  unfold group at 1. cbn [m_caps]. rewrite shape_code0. cbn [dedent_arg bind].
  eexists. split; [reflexivity|]. cbn [raw fence]. split; [|done].
  unfold group. cbn [m_caps]. by rewrite shape_raw0.
Qed.

(** C10. When the text does not start with a fenced block, that is, when
    the match tried at its first character finds nothing, [from_str] raises
    the [AttributeError] of [None.groups()]: it returns no record and no
    other value. *)
Theorem from_str_raises_without_leading_block (raw : string) :
  re_match FENCED_BLOCK_RE raw = None →
  from_str raw = Raise (AttributeError "'NoneType' object has no attribute 'groups'").
Proof. intros H. unfold from_str. by rewrite H. Qed.

(** In particular, a text whose first three characters are not three
    backticks or three tildes makes [from_str] raise, whatever follows. *)
Lemma from_str_raises_unless_marker_first (raw : string) :
  (∀ ch rest, raw = String ch (String ch (String ch rest)) →
              ch ≠ "`"%char ∧ ch ≠ "~"%char) →
  from_str raw = Raise (AttributeError "'NoneType' object has no attribute 'groups'").
Proof.
  intros H. unfold from_str.
  destruct (re_match FENCED_BLOCK_RE raw) as [m|] eqn:Hm; [exfalso|done].
  apply re_match_starts_with_marker in Hm as (ch & rest & Hch & ->).
  destruct (H ch rest eq_refl) as [? ?]. by destruct Hch.
Qed.

(** X20. [from_str] does not search: a text whose first character is not
    a fence character makes it raise the [AttributeError], also when a
    block follows further down. *)
Lemma from_str_raises_after_other_text (c : ascii) (before block : string) :
  c ≠ "`"%char → c ≠ "~"%char →
  from_str (String c before +:+ block)
  = Raise (AttributeError "'NoneType' object has no attribute 'groups'").
Proof.
  intros H1 H2. apply from_str_raises_unless_marker_first.
  intros ch rest Heq.
  change (String c (before +:+ block) = String ch (String ch (String ch rest))) in Heq.
  by simplify_eq.
Qed.

(** ** A closing line that holds exactly the opening marker closes the block *)

Lemma header_empty moving s i c :
  Derives moving s HEADER i c i (set_cap 3 (i, i) (set_cap 8 (i, i) c)).
Proof.
  unfold HEADER, Opt, Star, LazyStar, Lit. cbn [Derives].
  eexists. split; [|reflexivity]. right.
  exists i, c. split; [by right|].
  eexists. split; [constructor|reflexivity].
Qed.

Lemma block_opening ch N n body rest x :
  x < N → fenced_text ch N n body rest !! x = Some ch.
Proof.
  intros Hx. unfold fenced_text. rewrite lookup_app_l by (rewrite length_replicate; lia).
  by apply lookup_replicate_2.
Qed.

Lemma block_newline ch N n body rest :
  fenced_text ch N n body rest !! N = Some "010"%char.
Proof.
  unfold fenced_text. rewrite lookup_app_r by (rewrite length_replicate; lia).
  rewrite length_replicate. by replace (N - N) with 0 by lia.
Qed.

Lemma block_body ch N n body rest x :
  x < length body → fenced_text ch N n body rest !! (N + 1 + x) = body !! x.
Proof.
  intros Hx. unfold fenced_text. rewrite lookup_app_r by (rewrite length_replicate; lia).
  rewrite length_replicate. replace (N + 1 + x - N) with (S x) by lia.
  simpl. by rewrite lookup_app_l by lia.
Qed.

Lemma block_tail ch N n body rest x :
  fenced_text ch N n body rest !! (N + 1 + length body + x)
  = (replicate N ch ++ replicate n " "%char ++ rest) !! x.
Proof.
  unfold fenced_text. rewrite lookup_app_r by (rewrite length_replicate; lia).
  rewrite length_replicate.
  replace (N + 1 + length body + x - N) with (S (length body + x)) by lia.
  simpl. rewrite lookup_app_r by lia. f_equal. lia.
Qed.

Lemma block_closing ch N n body rest x :
  N + 1 + length body ≤ x < N + 1 + length body + N →
  fenced_text ch N n body rest !! x = Some ch.
Proof.
  intros Hx. replace x with (N + 1 + length body + (x - (N + 1 + length body))) by lia.
  rewrite block_tail. rewrite lookup_app_l by (rewrite length_replicate; lia).
  apply lookup_replicate_2. lia.
Qed.

Lemma block_spaces ch N n body rest x :
  N + 1 + length body + N ≤ x < N + 1 + length body + N + n →
  fenced_text ch N n body rest !! x = Some " "%char.
Proof.
  intros Hx. replace x with (N + 1 + length body + (x - (N + 1 + length body))) by lia.
  rewrite block_tail.
  rewrite lookup_app_r by (rewrite length_replicate; lia). rewrite length_replicate.
  rewrite lookup_app_l by (rewrite length_replicate; lia).
  apply lookup_replicate_2. lia.
Qed.

Lemma block_after ch N n body rest :
  fenced_text ch N n body rest !! (N + 1 + length body + N + n) = head rest.
Proof.
  replace (N + 1 + length body + N + n) with (N + 1 + length body + (N + n)) by lia.
  rewrite block_tail.
  rewrite lookup_app_r by (rewrite length_replicate; lia). rewrite length_replicate.
  rewrite lookup_app_r by (rewrite length_replicate; lia). rewrite length_replicate.
  replace (N + n - N - n) with 0 by lia. by destruct rest.
Qed.

Lemma block_before_closing ch N n body rest :
  body = [] ∨ last body = Some "010"%char →
  char_before (fenced_text ch N n body rest) (N + 1 + length body) = Some "010"%char.
Proof.
  intros Hbody.
  replace (N + 1 + length body) with (S (N + length body)) by lia. simpl.
  destruct Hbody as [->|Hl].
  - simpl. rewrite Nat.add_0_r. apply block_newline.
  - destruct body as [|b0 body' _] using rev_ind; [done|].
    rewrite last_snoc in Hl. simplify_eq.
    rewrite length_app. simpl.
    replace (N + (length body' + 1)) with (N + 1 + length body') by lia.
    rewrite block_body by (rewrite length_app; simpl; lia).
    rewrite lookup_app_r by lia. by replace (length body' - length body') with 0 by lia.
Qed.

Lemma block_length ch N n body rest :
  N + 1 + length body + N + n ≤ length (fenced_text ch N n body rest).
Proof.
  unfold fenced_text. rewrite !length_app, !length_replicate. simpl.
  rewrite !length_app, !length_replicate. lia.
Qed.

Lemma exact_closer_derivation ch N n body rest :
  ch = "`"%char ∨ ch = "~"%char → 3 ≤ N →
  body = [] ∨ last body = Some "010"%char →
  rest = [] ∨ head rest = Some "010"%char →
  ∃ c, Derives true (fenced_text ch N n body rest) FENCED_BLOCK_RE
         0 no_caps (N + 1 + length body + N + n) c.
Proof.
  intros Hch HN Hbody Hrest.
  set (s := fenced_text ch N n body rest). set (p := N + 1 + length body).
  unfold FENCED_BLOCK_RE, OPENING_FENCE, Star, LazyStar, Lit. cbn [Derives].
  eexists. eexists. split; [|reflexivity].
  exists N, (set_cap 2 (0, N) no_caps). split.
  { exists no_caps. split; [|done]. exists 0, no_caps. split; [done|].
    assert (Hrun : Iter true (Derives true s (Char (eqc ch))) 3 0 no_caps (0 + N) no_caps).
    { apply Iter_Char_run; [done|]. intros x Hx. unfold s. rewrite block_opening by lia.
      simpl. by apply bool_decide_eq_true. }
    destruct Hch as [-> | ->]; [by right|by left]. }
  exists N, (set_cap 2 (0, N) no_caps). split; [constructor|].
  eexists N, _. split; [apply header_empty|].
  eexists (S N), _. split.
  { exists "010"%char. split; [apply block_newline|]. by repeat split. }
  eexists p, _. split.
  { eexists. split; [|reflexivity].
    replace p with (S N + length body) by (unfold p; lia).
    apply (Iter_Char_run s true any); [lia|].
    intros x Hx. destruct (s !! x) eqn:E; [done|].
    apply lookup_ge_None in E. pose proof (block_length ch N n body rest). fold s in H. lia. }
  eexists p, _. split.
  { split; [|done]. unfold s, p. by rewrite block_before_closing. }
  eexists (p + (N - 0)), _. split.
  { exists 0, N. split; [done|]. split; [|split; [|done]].
    - rewrite (slice_replicate s p (p + (N - 0)) ch)
        by (intros; apply block_closing; unfold p in *; lia).
      rewrite (slice_replicate s 0 N ch) by (intros; apply block_opening; lia).
      f_equal. lia.
    - pose proof (block_length ch N n body rest). fold s in H. unfold p. lia. }
  eexists (p + N + n), _. split.
  { replace (p + (N - 0)) with (p + N) by lia.
    apply (Iter_Char_run s true (eqc " ")); [lia|].
    intros x Hx. unfold s. rewrite block_spaces by (unfold p in *; lia). done. }
  split; [|done]. unfold at_eol, s, p. rewrite block_after.
  destruct Hrest as [->|Hr]; [done|]. by rewrite Hr.
Qed.

(** X19. A text that starts with an opening line of [N >= 3] fence
    characters, and holds further down a line with the same [N] characters
    and then spaces only, starts with a block: [from_str] returns a record,
    and [grab_fences] one as its first, whose marker is the opening run. *)
Theorem exact_closing_line_closes ch N n body rest :
  ch = "`"%char ∨ ch = "~"%char → 3 ≤ N →
  body = [] ∨ last body = Some "010"%char →
  rest = [] ∨ head rest = Some "010"%char →
  (∃ f, from_str (text (fenced_text ch N n body rest)) = Ok f ∧
        fence f = Some (text (replicate N ch))) ∧
  (∃ f fs, grab_fences (text (fenced_text ch N n body rest)) = Ok (f :: fs) ∧
           fence f = Some (text (replicate N ch))).
Proof.
  intros Hch HN Hbody Hrest.
  set (s := fenced_text ch N n body rest).
  destruct (exact_closer_derivation ch N n body rest Hch HN Hbody Hrest) as [c Hd].
  fold s in Hd.
  destruct (match_at_complete s FENCED_BLOCK_RE 0 _ _ Hd ltac:(lia)) as [m Hm].
  assert (Hre : re_match FENCED_BLOCK_RE (text s) = Some m).
  { unfold re_match. by rewrite chars_text. }
  assert (Hg : group (text s) m 2 = Some (text (replicate N ch))).
  { apply match_at_sound in Hm as [Hi HM].
    apply fenced_block_shape in HM as (b & q & p & ch' & Hs).
    destruct m as [i j cm]. simpl in *. subst i. destruct Hs.
    unfold group. cbn [m_caps]. rewrite shape_fence0. f_equal.
    assert (b = N) as ->.
    { destruct (decide (b < N)) as [Hlt|Hge].
      - exfalso. apply (shape_run_end0 ch); [|by destruct Hch; auto].
        unfold s. by apply block_opening.
      - destruct (decide (N < b)) as [Hlt|]; [|lia]. exfalso.
        pose proof (shape_opening0 N ltac:(lia)) as HN'.
        unfold s in HN'. rewrite block_newline in HN'. simplify_eq.
        by destruct shape_fence_char0. }
    unfold substr. rewrite chars_text. f_equal.
    rewrite (slice_replicate s 0 N ch); [f_equal; lia|].
    intros k Hk. unfold s. apply block_opening. lia. }
  split.
  - destruct (from_str_returns_on_match _ _ Hre) as (f & Hf & _ & Hfence).
    exists f. split; [done|]. by rewrite Hfence.
  - rewrite grab_fences_eq. unfold finditer.
    replace (String.length (text s) + 2) with (S (String.length (text s) + 1)) by lia.
    cbn [scan]. rewrite decide_False by lia.
    unfold re_match in Hre. rewrite Hre. cbn [map].
    eexists _, _. split; [reflexivity|].
    unfold fence_of_match. cbn [fence]. by rewrite Hg.
Qed.

(** ** The properties at work on small documents *)

Lemma two_blocks_fences : grab_fences two_blocks = Ok [block_x; block_y].
Proof. vm_compute. reflexivity. Qed.

Lemma no_title_block_x : no_title block_x.
Proof. exists [], []. by repeat split. Qed.

Lemma no_title_block_y : no_title block_y.
Proof. exists [], []. by repeat split. Qed.

(** After [check_raw_string] on the two blocks, in independent mode, the
    second block has read the [x] of the first: [y] is bound to 1, and
    both names stay bound for the next document. *)
Lemma independent_mode_sees_earlier_name :
  ∃ w, check_raw_string demo two_blocks "python" module_init = (w, Ok ()) ∧
       python_fence_globals w !! "y"%string = Some (PyInt 1) ∧
       python_fence_globals w !! "x"%string = Some (PyInt 1).
Proof. eexists. split; [vm_compute; reflexivity|]. by vm_compute. Qed.

(** The name bound by one document is still there for the next one. *)
Lemma names_persist_across_documents :
  ∃ w1 w2,
    check_raw_string demo block_x_doc "python" module_init = (w1, Ok ()) ∧
    check_raw_string demo block_y_doc "python" w1 = (w2, Ok ()) ∧
    python_fence_globals w2 !! "y"%string = Some (PyInt 1).
Proof.
  eexists _, _. split; [vm_compute; reflexivity|].
  split; [vm_compute; reflexivity|]. by vm_compute.
Qed.

(** With [exec_python], the executor of the first registry, each block has
    a namespace of its own: the second block does not see [x]. *)
Lemma exec_python_isolates_blocks :
  let w := register_executor "python" ExecPython module_init in
  check_raw_string demo two_blocks "python" w
  = (print ("y = x" +:+ nl) w, Raise (Raised "NameError" "name 'x' is not defined")).
Proof. vm_compute. reflexivity. Qed.

(** [exec_file_fence] on [Fence()], whose [options] is [None]. *)
Lemma exec_file_fence_on_default_fence (rt : runtime) (w : world) :
  exec_file_fence rt (VFence Fence_default) w
  = (w, Raise (no_attribute "NoneType" "get")).
Proof. reflexivity. Qed.

(** The python executor is called on the blocks tagged [yaml] and [bash]:
    the second reads the [x] that the first bound. *)
Lemma grab_code_blocks_ignores_lang_witness :
  _executors module_init !! "python"%string = Some ExecPythonFence ∧
  ∃ fs,
    grab_fences other_tags = Ok fs ∧
    grab_code_blocks other_tags [("lang"%string, Some "python"%string)] = Ok fs ∧
    fs = map (fence_of_match other_tags) (finditer FENCED_BLOCK_RE other_tags) ∧
    dispatched demo ExecPythonFence fs module_init
      (check_raw_string demo other_tags "python" module_init) ∧
    dispatched demo ExecPythonFence fs module_init
      (check_docstring demo (Some other_tags) "python" module_init) ∧
    dispatched demo ExecPythonFence fs module_init
      (check_md_file demo other_tags false "python" module_init).
Proof.
  assert (H1 : _executors module_init !! "python"%string = Some ExecPythonFence)
    by (vm_compute; reflexivity).
  split; [exact H1|].
  exact (grab_code_blocks_ignores_lang demo other_tags _ "python" ExecPythonFence
           module_init H1).
Defined.

Lemma blocks_of_other_languages_are_executed :
  ∃ f1 f2 w,
    grab_fences other_tags = Ok [f1; f2] ∧
    lang f1 = Some "yaml"%string ∧ lang f2 = Some "bash"%string ∧
    check_raw_string demo other_tags "python" module_init = (w, Ok ()) ∧
    python_fence_globals w !! "x"%string = Some (PyInt 1) ∧
    python_fence_globals w !! "y"%string = Some (PyInt 1).
Proof.
  eexists _, _, _. split; [vm_compute; reflexivity|].
  split; [reflexivity|]. split; [reflexivity|].
  split; [vm_compute; reflexivity|]. split; by vm_compute.
Qed.

Lemma independent_mode_shares_the_namespace_witness :
  _executors module_init !! "python"%string = Some ExecPythonFence ∧
  grab_fences two_blocks = Ok [block_x; block_y] ∧
  no_title block_x ∧ no_title block_y ∧
  py_exec demo (contents block_x) (python_fence_globals module_init)
  = (<["x"%string := PyInt 1]> ∅, None) ∧
  check_raw_string demo two_blocks "python" module_init
  = exec_in_default_globals demo (contents block_y)
      (set_python_fence_globals (<["x"%string := PyInt 1]> ∅) module_init).
Proof.
  assert (H1 : _executors module_init !! "python"%string = Some ExecPythonFence)
    by (vm_compute; reflexivity).
  assert (H2 : py_exec demo (contents block_x) (python_fence_globals module_init)
               = (<["x"%string := PyInt 1]> ∅, None)) by (vm_compute; reflexivity).
  split; [exact H1|]. split; [exact two_blocks_fences|].
  split; [exact no_title_block_x|]. split; [exact no_title_block_y|].
  split; [exact H2|].
  apply (independent_mode_shares_the_namespace demo two_blocks block_x block_y
           module_init _ H1 two_blocks_fences no_title_block_x no_title_block_y H2).
Defined.

(** In cumulative mode nothing of the two blocks is executed. *)
Lemma cumulative_mode_raises_AttributeError_witness :
  _executors module_init !! "python"%string = Some ExecPythonFence ∧
  ∃ msg,
    check_raw_file_full demo two_blocks "python" module_init
    = (module_init, Raise (AttributeError msg)) ∧
    check_md_file demo two_blocks true "python" module_init
    = (module_init, Raise (AttributeError msg)).
Proof.
  assert (H1 : _executors module_init !! "python"%string = Some ExecPythonFence)
    by (vm_compute; reflexivity).
  split; [done|].
  exact (cumulative_mode_raises_AttributeError demo two_blocks "python" _ module_init H1).
Defined.

Lemma cumulative_mode_on_two_blocks :
  check_md_file demo two_blocks true "python" module_init
  = (module_init, Raise (AttributeError "'str' object has no attribute 'options'")).
Proof. vm_compute. reflexivity. Qed.

Lemma unregistered_tag_raises_LookupError_witness :
  _executors module_init !! "ruby"%string = None ∧
  check_raw_string demo two_blocks "ruby" module_init
  = (module_init, Raise (unsupported "ruby")).
Proof.
  assert (H : _executors module_init !! "ruby"%string = None) by (vm_compute; reflexivity).
  split; [done|].
  apply (unregistered_tag_raises_LookupError demo "ruby" module_init H).
Defined.


(** Nor does a tab after the closing marker: only spaces may follow it. *)
Lemma tab_after_closing_marker_does_not_close :
  grab_fences ("```" +:+ nl +:+ "x = 1" +:+ nl +:+ "```" +:+ String "009" nl) = Ok [].
Proof. vm_compute. reflexivity. Qed.

(** An opening marker with no closing line gives no block and no error. *)
Lemma unterminated_fence_is_skipped :
  grab_fences ("```python" +:+ nl +:+ "x = 1" +:+ nl) = Ok [].
Proof. vm_compute. reflexivity. Qed.

(** The tokens of a header keep their order. *)
Lemma attributes_keep_their_order :
  attrs_from_str (Some ".a #b key='v'"%string)
  = [("a"%string, mkAttr None "class"); ("b"%string, mkAttr None "id");
     ("key"%string, mkAttr (Some "v"%string) "keyval")].
Proof. vm_compute. reflexivity. Qed.

(** C6, as the specification states it, fails on the header [.a a='v']: the
    entry of [a] is the one of the later token, of kind [keyval], not of
    kind [class]. *)
Lemma later_token_replaces_the_kind :
  tokens_of (Some ".a a='v'"%string)
  = [("a"%string, mkAttr None "class"); ("a"%string, mkAttr (Some "v"%string) "keyval")] ∧
  attrs_from_str (Some ".a a='v'"%string) = [("a"%string, mkAttr (Some "v"%string) "keyval")] ∧
  od_get "a" (attrs_from_str (Some ".a a='v'"%string)) ≠ Some (mkAttr (Some "v"%string) "class").
Proof. split; [vm_compute; reflexivity|]. split; [vm_compute; reflexivity|]. by vm_compute. Qed.

(** C9, as the specification states it, fails on a yaml block without a
    title: the error raised is the [TypeError] of [open(None, "w")], and its
    message does not name [title]. *)
Lemma missing_title_error_does_not_name_title :
  from_str ("```yaml" +:+ nl +:+ "a: 1" +:+ nl +:+ "```") = Ok yaml_untitled ∧
  no_title yaml_untitled ∧
  exec_file_fence demo (VFence yaml_untitled) module_init
  = (module_init,
     Raise (TypeError "expected str, bytes or os.PathLike object, not NoneType")) ∧
  mentions "title"
    (TypeError "expected str, bytes or os.PathLike object, not NoneType") = false.
Proof.
  split; [vm_compute; reflexivity|]. split; [by exists [], []|].
  split; vm_compute; reflexivity.
Qed.

Lemma exec_file_fence_title_witness :
  (options yaml_untitled = Some [] ∧ attrs yaml_untitled = Some [] ∧
   ∃ e, exec_file_fence demo (VFence yaml_untitled) module_init = (module_init, Raise e) ∧
        e = TypeError "expected str, bytes or os.PathLike object, not NoneType" ∧
        mentions "title" e = false) ∧
  (options yaml_titled = Some [("title"%string, Some "out.yaml"%string)] ∧
   attrs yaml_titled = Some [] ∧
   exec_file_fence demo (VFence yaml_titled) module_init
   = (write_file "out.yaml" (contents yaml_titled) module_init, Ok ()) ∧
   files (write_file "out.yaml" (contents yaml_titled) module_init) !! "out.yaml"%string
   = Some (contents yaml_titled)).
Proof.
  split.
  - split; [done|]. split; [done|].
    apply (exec_file_fence_title demo yaml_untitled module_init [] [] eq_refl eq_refl);
      done.
  - split; [done|]. split; [done|].
    apply (exec_file_fence_title demo yaml_titled module_init
             [("title"%string, Some "out.yaml"%string)] [] eq_refl eq_refl);
      [done|done|by left].
Defined.

Lemma titled_yaml_block_is_parsed :
  from_str ("```yaml title='out.yaml'" +:+ nl +:+ "a: 1" +:+ nl +:+ "```") = Ok yaml_titled.
Proof. vm_compute. reflexivity. Qed.

Lemma from_str_raises_without_leading_block_witness :
  re_match FENCED_BLOCK_RE ("text" +:+ nl +:+ two_blocks) = None ∧
  from_str ("text" +:+ nl +:+ two_blocks)
  = Raise (AttributeError "'NoneType' object has no attribute 'groups'").
Proof.
  assert (H : re_match FENCED_BLOCK_RE ("text" +:+ nl +:+ two_blocks) = None)
    by (vm_compute; reflexivity).
  split; [done|]. apply (from_str_raises_without_leading_block _ H).
Defined.

(** The same text holds two blocks for [grab_fences]. *)
Lemma leading_text_is_skipped_by_grab_fences :
  grab_fences ("text" +:+ nl +:+ two_blocks) = Ok [block_x; block_y].
Proof. vm_compute. reflexivity. Qed.

(** * More of the module *)

(** ** What [grab_fences] returns *)

Lemma slice_lookup {A} (l : list A) (a b k : nat) :
  k < b - a → slice a b l !! k = l !! (a + k).
Proof. intros Hk. unfold slice. by rewrite lookup_take_lt, lookup_drop by lia. Qed.

Lemma slice_replicate_lookup {A} (l : list A) (a b : nat) (x : A) :
  slice a b l = replicate (b - a) x → b ≤ length l →
  ∀ k, a ≤ k < b → l !! k = Some x.
Proof.
  intros Hs Hb k Hk. replace k with (a + (k - a)) by lia.
  rewrite <-(slice_lookup l a b) by lia. rewrite Hs.
  apply lookup_replicate_2. lia.
Qed.

(** X1. [grab_fences] raises nothing and returns one record for each match
    of the pattern, in the order of the text: each match takes at least one
    character, ends within the text, and starts where the one before it
    ended or later. *)
Theorem grab_fences_in_document_order (doc : string) :
  grab_fences doc = Ok (map (fence_of_match doc) (finditer FENCED_BLOCK_RE doc)) ∧
  Sorted (λ m1 m2, m_end m1 ≤ m_start m2) (finditer FENCED_BLOCK_RE doc) ∧
  Forall (λ m, m_start m < m_end m ≤ String.length doc) (finditer FENCED_BLOCK_RE doc).
Proof.
  split; [apply grab_fences_eq|]. split; [apply finditer_ordered|].
  apply Forall_forall. intros m Hm.
  destruct (finditer_shape doc m Hm) as (b & q & p & ch & Hs).
  destruct Hs as [_ _ Hrun _ _ [Hbq _] [Hqp _] _ [Hpj Hj] _ _ _ _ _].
  rewrite <-length_chars. lia.
Qed.

Lemma marker_line_found (s : list ascii) (p : nat) :
  p < length s → marker_line_at s p = true → has_marker_line s = true.
Proof.
  intros Hp Hm. unfold has_marker_line. apply existsb_exists.
  exists p. split; [|done]. apply in_seq. lia.
Qed.

Lemma block_has_marker_line s i j c b q p ch :
  block_shape s i j c b q p ch → has_marker_line s = true.
Proof.
  intros Hs.
  destruct Hs as [Hfc _ Hrun3 Hopen _ _ [_ Hbefore] Hclosing [Hpj Hj] _ _ _ _ _].
  assert (Hrun : ∀ k, p ≤ k < p + (b - i) → s !! k = Some ch).
  { apply (slice_replicate_lookup s p (p + (b - i)) ch); [|lia].
    rewrite Hclosing. replace (p + (b - i) - p) with (b - i) by lia.
    by apply slice_replicate. }
  apply (marker_line_found s p); [lia|].
  unfold marker_line_at, three_at. rewrite Hbefore. simpl.
  rewrite !Hrun by lia. simpl.
  destruct Hfc as [-> | ->]; by vm_compute.
Qed.

(** X2. An opening marker alone opens nothing: when no line after the first
    starts with three backticks or three tildes, [grab_fences] returns the
    empty list, without an error, and a check of the text with a registered
    tag executes nothing and succeeds. *)
Theorem no_marker_line_no_fence (rt : runtime) (doc lang : string) (e : executor) (w : world) :
  has_marker_line (chars doc) = false →
  _executors w !! lang = Some e →
  grab_fences doc = Ok [] ∧
  check_raw_string rt doc lang w = (w, Ok ()) ∧
  check_docstring rt (Some doc) lang w = (w, Ok ()).
Proof.
  intros Hno Hreg.
  assert (Hnil : finditer FENCED_BLOCK_RE doc = []).
  { destruct (finditer FENCED_BLOCK_RE doc) as [|m ms] eqn:E; [done|].
    destruct (finditer_shape doc m) as (b & q & p & ch & Hs); [rewrite E; left|].
    apply block_has_marker_line in Hs. congruence. }
  assert (Hg : grab_fences doc = Ok []) by (by rewrite grab_fences_eq, Hnil).
  split; [done|].
  unfold check_docstring, check_raw_string, grab_code_blocks_of, grab_code_blocks.
  by rewrite Hreg, Hg.
Qed.

(** The groups of the header: the braces set groups 4 and 5, the other form
    groups 6 to 9. *)
Lemma Group_Alt_caps s n A B i c j c' :
  Matches s (Group n (Alt A B)) i c j c' →
  (∀ g, g ≠ n → g ∉ groups_of A → c' g = c g) ∨
  (∀ g, g ≠ n → g ∉ groups_of B → c' g = c g).
Proof.
  cbn [Derives]. intros (c0 & [H|H] & ->); [left|right]; intros g Hn Hg;
    unfold set_cap; rewrite decide_False by done; by eapply Matches_caps.
Qed.

Lemma not_in_list (g : nat) (l : list nat) : forallb (λ x, negb (g =? x)) l = true → g ∉ l.
Proof.
  intros H Hin. apply list_elem_of_In in Hin.
  eapply forallb_forall in H; [|exact Hin]. rewrite Nat.eqb_refl in H. done.
Qed.

Lemma header_groups s i c j c' :
  Matches s HEADER i c j c' →
  c' 5 = c 5 ∨ (c' 7 = c 7 ∧ c' 8 = c 8).
Proof.
  unfold HEADER. intros H. apply Group_Alt_caps in H as [H|H].
  - right. split; apply H; try done; by apply not_in_list.
  - left. apply H; [done|]. by apply not_in_list.
Qed.

Lemma fenced_block_header_groups s i j c :
  Matches s FENCED_BLOCK_RE i no_caps j c →
  c 5 = None ∨ (c 7 = None ∧ c 8 = None).
Proof.
  unfold FENCED_BLOCK_RE, OPENING_FENCE, Star, LazyStar, Lit. cbn [Derives].
  intros (c9 & (b & c2 & (c1 & (i' & c0 & (Hbol & Hi' & Hc0) & Hrun) & Hc2) &
            b' & c3 & Hsp1 & q0 & c4 & Hhdr & q & c5 & Hnl & p & c6 &
            (c7 & Hbody & Hc6) & p' & c8 & (Hlb & Hp' & Hc8) & e & c10 &
            Hback & j' & c11 & Hsp2 & Heol & Hj & Hc9) & Hc).
  apply (Iter_Char s false (eqc " ")) in Hsp1 as (Hc3 & _ & _).
  apply (Iter_Char s false (eqc " ")) in Hsp2 as (Hc11 & _ & _).
  destruct Hnl as (a & _ & _ & _ & Hc5).
  apply (Iter_Char s false any) in Hbody as (Hc7 & _ & _).
  destruct Hback as (x & y & _ & _ & _ & _ & Hc10).
  assert (Hc1 : c1 = no_caps).
  { destruct Hrun as [Hrun|Hrun].
    - by apply (Iter_Char s false (eqc "~")) in Hrun as (-> & _ & _).
    - by apply (Iter_Char s false (eqc "`")) in Hrun as (-> & _ & _). }
  apply header_groups in Hhdr.
  subst. unfold set_cap in *. simpl in *. done.
Qed.

(** ** The header of the opening line *)

(** X3. The braces and the options exclude one another: a record of
    [grab_fences] has no attribute, or else it has no option and its
    language is the name of its first attribute when that is a class, and
    [None] otherwise. *)
Theorem braces_exclude_options (doc : string) :
  ∃ fs, grab_fences doc = Ok fs ∧
    Forall (λ f,
              attrs f = Some [] ∨
              (options f = Some [] ∧
               ∃ a, attrs f = Some a ∧
                    lang f = match a with
                             | (name, x) :: _ =>
                                 if decide (type x = "class"%string) then Some name else None
                             | [] => None
                             end)) fs.
Proof.
  eexists. split; [apply grab_fences_eq|].
  apply Forall_forall. intros f Hf. apply list_elem_of_fmap in Hf as (m & -> & Hm).
  apply finditer_match_at, match_at_sound in Hm as [_ HM].
  apply fenced_block_header_groups in HM as [H5|[H7 H8]].
  - left. unfold fence_of_match, group. by rewrite H5.
  - right. unfold fence_of_match, group. rewrite H7, H8. cbn [default attrs options lang].
    split; [done|]. eexists. split; [reflexivity|]. done.
Qed.

Lemma slice_cons {A} (l : list A) (x y : nat) (a : A) :
  x < y → l !! x = Some a → slice x y l = a :: slice (S x) y l.
Proof.
  intros Hxy Ha. unfold slice. rewrite (drop_S l a x Ha).
  replace (y - x) with (S (y - S x)) by lia. done.
Qed.

Lemma forallb_slice (p : ascii → bool) (s : list ascii) : ∀ n x,
  (∀ k, x ≤ k < x + n → holds p (s !! k) = true) →
  forallb p (slice x (x + n) s) = true.
Proof.
  induction n as [|n IH]; intros x H.
  { unfold slice. by replace (x + 0 - x) with 0 by lia. }
  pose proof (H x ltac:(lia)) as Hx.
  destruct (s !! x) as [a|] eqn:Ha; [|done].
  rewrite (slice_cons s x (x + S n) a) by (done || lia). simpl in *. rewrite Hx. simpl.
  replace (x + S n) with (S x + n) by lia. apply IH. intros k Hk. apply H. lia.
Qed.

Lemma identifier_slice (tail_ok : ascii → bool) (s : list ascii) (x y : nat) :
  x < y → holds alpha (s !! x) = true →
  (∀ k, S x ≤ k < y → holds tail_ok (s !! k) = true) →
  identifier tail_ok (text (slice x y s)) = true.
Proof.
  intros Hxy Hx Hall. unfold identifier. rewrite chars_text.
  destruct (s !! x) as [a|] eqn:Ha; [|done].
  rewrite (slice_cons s x y a) by done. simpl in Hx. rewrite Hx. simpl.
  replace y with (S x + (y - S x)) by lia. apply forallb_slice.
  intros k Hk. apply Hall. lia.
Qed.

(** The name that a match of [CLASS_RE] or [ID_RE] takes, and the key that
    a match of [KEY_VAL_RE] takes. *)
Lemma marked_name_chars (mark : ascii) s i j c :
  Matches s (Star (Char blank) >> Lit mark >>
             Group 1 (Char alpha >> Star (Char name_char)) >>
             Star (Char blank))%re i no_caps j c →
  ∃ x y, c 1 = Some (x, y) ∧ identifier name_char (text (slice x y s)) = true.
Proof.
  unfold Star, Lit. cbn [Derives].
  intros (m1 & c1 & Hsp1 & m2 & c2 & (a & Ha & _ & Hm2 & Hc2) & m3 & c3 &
          (c4 & (m4 & c5 & (a' & Ha' & Hal & Hm4 & Hc5) & Hname) & Hc3) & Hsp2).
  apply (Iter_Char s false name_char) in Hname as (Hc4 & Hle2 & Hall).
  apply (Iter_Char s false blank) in Hsp2 as (Hc & Hle3 & _).
  subst. eexists _, _. split.
  - unfold set_cap. rewrite decide_True by done. reflexivity.
  - apply identifier_slice; [lia| by rewrite Ha' |done].
Qed.

Lemma key_val_chars s i j c :
  Matches s KEY_VAL_RE i no_caps j c →
  ∃ x y, c 1 = Some (x, y) ∧ identifier key_char (text (slice x y s)) = true.
Proof.
  unfold KEY_VAL_RE, Opt, Star, LazyStar, Lit. cbn [Derives].
  intros (m1 & c1 & Hsp1 & m2 & c2 &
          (c3 & (m3 & c4 & (_ & Hm3 & Hc4) & m4 & c5 & (a & Ha & Hal & Hm4 & Hc5) & Hkey) & Hc2) &
          m5 & c6 & Hopt & Hsp2).
  apply (Iter_Char s false key_char) in Hkey as (Hc3 & Hle2 & Hall).
  apply (Iter_Char s false blank) in Hsp2 as (Hc & Hle3 & _).
  assert (c6 1 = c2 1) as Hg.
  { destruct Hopt as [Hval|[-> ->]]; [|done].
    destruct Hval as (m6 & c7 & (a1 & _ & _ & Hm6 & Hc7) & m7 & c8 &
                      (c9 & (a2 & _ & _ & Hm7 & Hc9) & Hc8) & m8 & c10 &
                      (c11 & Hany & Hc10) & x & y & _ & _ & _ & Hm5 & Hc6).
    apply (Iter_Char s false any) in Hany as (Hc11 & Hle5 & _).
    subst c7 c9 c8 c11 c10 c6.
    unfold set_cap. by rewrite !decide_False by done. }
  subst m3 c4 m4 c5 c3 c. exists m1, m2. split.
  - rewrite Hg, Hc2. unfold set_cap. by rewrite decide_True.
  - apply identifier_slice; [lia| by rewrite Ha |done].
Qed.

Lemma re_match_name tail_ok r raw m name :
  (∀ s i j c, Matches s r i no_caps j c →
              ∃ x y, c 1 = Some (x, y) ∧ identifier tail_ok (text (slice x y s)) = true) →
  re_match r raw = Some m → group raw m 1 = Some name →
  identifier tail_ok name = true.
Proof.
  intros Hshape Hm Hg. apply match_at_sound in Hm as [_ HM].
  apply Hshape in HM as (x & y & Hc & Hid).
  unfold group in Hg. rewrite Hc in Hg. by simplify_eq.
Qed.

Lemma attr_token_entry raw name a e :
  attr_token raw = Some (name, a, e) → attr_entry name a.
Proof.
  unfold attr_token, attr_entry. intros H.
  destruct (re_match CLASS_RE raw) as [m|] eqn:H1.
  { destruct (group raw m 1) as [k|] eqn:Hk; [|done]. simplify_eq. left.
    repeat split. eapply (re_match_name name_char CLASS_RE); [|done..].
    intros. by eapply marked_name_chars. }
  destruct (re_match ID_RE raw) as [m|] eqn:H2.
  { destruct (group raw m 1) as [k|] eqn:Hk; [|done]. simplify_eq. right. left.
    repeat split. eapply (re_match_name name_char ID_RE); [|done..].
    intros. by eapply marked_name_chars. }
  destruct (re_match KEY_VAL_RE raw) as [m|] eqn:H3; [|done].
  destruct (group raw m 1) as [k|] eqn:Hk; [|done]. simplify_eq. right. right.
  split; [done|]. eapply (re_match_name key_char KEY_VAL_RE); [|done..].
  intros. by eapply key_val_chars.
Qed.

Lemma od_keys_set_NoDup {V} (k : string) (v : V) (d : odict V) :
  NoDup (od_keys d) → NoDup (od_keys (od_set k v d)).
Proof.
  intros H. rewrite od_keys_set. case_decide; [done|].
  apply NoDup_app. split; [done|]. split; [|apply NoDup_singleton].
  intros x Hx Hk. apply list_elem_of_singleton in Hk. by subst.
Qed.

Lemma od_set_Forall {V} (P : string → V → Prop) (k : string) (v : V) (d : odict V) :
  P k v → Forall (λ kv, P kv.1 kv.2) d → Forall (λ kv, P kv.1 kv.2) (od_set k v d).
Proof.
  intros Hk. induction d as [|[k' v'] d IH]; intros H; simpl.
  - by constructor.
  - apply Forall_cons in H as [H1 H2]. case_decide; constructor; auto.
Qed.

Lemma attrs_loop_entries fuel : ∀ raw acc,
  NoDup (od_keys acc) → Forall (λ kv, attr_entry kv.1 kv.2) acc →
  NoDup (od_keys (attrs_loop fuel raw acc)) ∧
  Forall (λ kv, attr_entry kv.1 kv.2) (attrs_loop fuel raw acc).
Proof.
  induction fuel as [|fuel IH]; intros raw acc Hn Hf; simpl; [done|].
  case_decide; [done|].
  destruct (attr_token raw) as [[[name a] e]|] eqn:Ht; [|done].
  apply IH; [by apply od_keys_set_NoDup|].
  apply (od_set_Forall attr_entry); [|done]. by eapply attr_token_entry.
Qed.

(** X4. What [attrs_from_str] returns, whatever the text: no name twice,
    and under each name an entry of kind [class], [id] or [keyval]; a class
    and an id have no value, and their name is a letter followed by letters,
    digits, [_] and [-]; a key is a letter followed by letters, digits and
    [_]. *)
Theorem attrs_from_str_entries (raw : option string) :
  NoDup (od_keys (attrs_from_str raw)) ∧
  Forall (λ kv, attr_entry kv.1 kv.2) (attrs_from_str raw).
Proof.
  destruct raw as [raw|]; simpl; [|split; constructor].
  apply attrs_loop_entries; constructor.
Qed.

Lemma options_loop_tokens fuel : ∀ raw acc,
  options_loop fuel raw acc = fold_left store (option_tokens fuel raw) acc.
Proof.
  induction fuel as [|fuel IH]; intros raw acc; simpl; [done|].
  case_decide; [done|].
  destruct (re_match KEY_VAL_RE raw) as [m|]; [|done].
  destruct (group raw m 1) as [key|]; [|done].
  simpl. by rewrite IH.
Qed.

Lemma option_tokens_keys fuel : ∀ raw,
  Forall (λ t, identifier key_char t.1 = true) (option_tokens fuel raw).
Proof.
  induction fuel as [|fuel IH]; intros raw; simpl; [constructor|].
  case_decide; [constructor|].
  destruct (re_match KEY_VAL_RE raw) as [m|] eqn:Hm; [|constructor].
  destruct (group raw m 1) as [key|] eqn:Hk; [|constructor].
  constructor; [|apply IH]. simpl.
  eapply (re_match_name key_char KEY_VAL_RE); [|done..].
  intros. by eapply key_val_chars.
Qed.

(** X5. [options_from_str] on a text with a repeated key: the keys of the
    mapping are the keys of the pairs that the loop takes, each at the place
    of its first pair, every key a letter followed by letters, digits and
    [_], and the value under a key is the value of its last pair, [None]
    when that pair has no value. *)
Theorem options_from_str_repeated_key (raw : option string) :
  od_keys (options_from_str raw) = dedup_first (map fst (option_tokens_of raw)) ∧
  (∀ key, od_get key (options_from_str raw) = od_get key (rev (option_tokens_of raw))) ∧
  Forall (λ key, identifier key_char key = true) (od_keys (options_from_str raw)).
Proof.
  destruct raw as [raw|]; simpl; [|by repeat split].
  rewrite options_loop_tokens.
  assert (Hk : od_keys (fold_left store (option_tokens (String.length raw) raw) [])
               = dedup_first (map fst (option_tokens (String.length raw) raw))).
  { rewrite keys_fold_store. simpl. apply filter_all. intros x Hx. by apply elem_of_nil in Hx. }
  split; [done|]. split.
  - intros key. rewrite get_fold_store. simpl. by destruct (od_get key _).
  - rewrite Hk. clear Hk.
    pose proof (option_tokens_keys (String.length raw) raw) as Hf.
    induction Hf as [|t ts Ht Hts IH]; simpl; [constructor|].
    constructor; [done|]. apply Forall_forall. intros x Hx.
    apply list_elem_of_filter in Hx as [_ Hx].
    by apply (proj1 (Forall_forall _ _) IH).
Qed.

(** The first character of a match of the three patterns of the header. *)
Lemma marked_name_first (mark : ascii) s j c :
  Matches s (Star (Char blank) >> Lit mark >>
             Group 1 (Char alpha >> Star (Char name_char)) >>
             Star (Char blank))%re 0 no_caps j c →
  ∃ a, s !! 0 = Some a ∧ (blank a = true ∨ a = mark).
Proof.
  unfold Star, Lit. cbn [Derives].
  intros (m1 & c1 & Hsp1 & m2 & c2 & (a & Ha & Hmark & _ & _) & _).
  apply (Iter_Char s false blank) in Hsp1 as (_ & _ & Hall).
  destruct m1 as [|m1].
  - exists a. split; [done|]. right. by apply bool_decide_eq_true in Hmark.
  - specialize (Hall 0 ltac:(lia)). destruct (s !! 0) as [a0|]; [|done].
    exists a0. split; [done|]. by left.
Qed.

Lemma key_val_first s j c :
  Matches s KEY_VAL_RE 0 no_caps j c →
  ∃ a, s !! 0 = Some a ∧ (blank a = true ∨ alpha a = true).
Proof.
  unfold KEY_VAL_RE, Opt, Star, LazyStar, Lit. cbn [Derives].
  intros (m1 & c1 & Hsp1 & m2 & c2 &
          (c3 & (m3 & c4 & (_ & Hm3 & _) & m4 & c5 & (a & Ha & Hal & _ & _) & _) & _) & _).
  apply (Iter_Char s false blank) in Hsp1 as (_ & _ & Hall). subst m3.
  destruct m1 as [|m1].
  - exists a. split; [done|]. by right.
  - specialize (Hall 0 ltac:(lia)). destruct (s !! 0) as [a0|]; [|done].
    exists a0. split; [done|]. by left.
Qed.

Lemma re_match_first (P : ascii → Prop) r (a : ascii) (rest : string) :
  (∀ s j c, Matches s r 0 no_caps j c → ∃ a, s !! 0 = Some a ∧ P a) →
  ¬ P a → re_match r (String a rest) = None.
Proof.
  intros Hfirst Hno. destruct (re_match r (String a rest)) as [m|] eqn:Hm; [|done].
  apply match_at_sound in Hm as [_ HM]. apply Hfirst in HM as (a' & Ha' & HP).
  simpl in Ha'. by simplify_eq.
Qed.

(** X21. The header parsers give up without an error at text they cannot
    read: on a text whose first character is not a space, a tab, a letter,
    [.] or [#], [attrs_from_str] returns the empty mapping, whatever
    follows, and so does [options_from_str] when that character is not a
    space, a tab or a letter. *)
Theorem header_parsers_stop_at_other_text (a : ascii) (rest : string) :
  blank a = false → alpha a = false →
  options_from_str (Some (String a rest)) = [] ∧
  (a ≠ "."%char → a ≠ "#"%char → attrs_from_str (Some (String a rest)) = []).
Proof.
  intros Hb Ha.
  assert (Hkv : re_match KEY_VAL_RE (String a rest) = None).
  { apply (re_match_first (λ x, blank x = true ∨ alpha x = true)).
    - intros. by eapply key_val_first.
    - intros [?|?]; congruence. }
  split.
  - cbn [options_from_str String.length options_loop].
    rewrite decide_False by done. by rewrite Hkv.
  - intros Hdot Hhash.
    cbn [attrs_from_str String.length attrs_loop].
    rewrite decide_False by done. unfold attr_token.
    rewrite (re_match_first (λ x, blank x = true ∨ x = "."%char) CLASS_RE),
            (re_match_first (λ x, blank x = true ∨ x = "#"%char) ID_RE), Hkv; [done|..].
    + intros. by eapply marked_name_first.
    + intros [?|?]; congruence.
    + intros. by eapply marked_name_first.
    + intros [?|?]; congruence.
Qed.

(** ** [Fence.from_re_groups] and [Fence.from_str], errors and agreement *)

(** X6. [from_re_groups] on any tuple: with fewer than ten groups it raises
    [IndexError]; with ten or more, of which the last is [None], it raises
    the [TypeError] of [dedent]; otherwise it returns a record, whatever the
    other groups are, [None] included, whose contents are the last group
    dedented and whose marker and text are groups 1 and 0. *)
Theorem from_re_groups_on_any_tuple (groups : list (option string)) :
  match groups !! 9 with
  | None => from_re_groups groups = Raise (IndexError "tuple index out of range")
  | Some None => ∃ msg, from_re_groups groups = Raise (TypeError msg)
  | Some (Some code) =>
      ∃ f, from_re_groups groups = Ok f ∧
           contents f = dedent code ∧
           Some (fence f) = groups !! 1 ∧ Some (raw f) = groups !! 0 ∧
           Some (attrs f) = (λ g, Some (attrs_from_str g)) <$> groups !! 4 ∧
           Some (options f) = (λ g, Some (options_from_str g)) <$> groups !! 7
  end.
Proof.
  do 10 (destruct groups as [|? groups]; [reflexivity|]).
  cbn [lookup list_lookup]. unfold from_re_groups, item. cbn [lookup list_lookup bind].
  destruct o8 as [code|]; cbn [dedent_arg bind].
  - eexists. split; [reflexivity|]. done.
  - eexists. reflexivity.
Qed.

Lemma from_re_groups_groups md i j c :
  Matches (chars md) FENCED_BLOCK_RE i no_caps j c →
  from_re_groups (groups 10 md (MatchObj i j c)) = Ok (fence_of_match md (MatchObj i j c)).
Proof.
  intros HM. apply fenced_block_shape in HM as (b & q & p & ch & Hs).
  destruct Hs as [_ _ _ _ _ _ _ _ _ _ _ Hraw Hfence Hcode].
  unfold from_re_groups, groups, fence_of_match, item.
  cbn [seq map lookup list_lookup bind]. unfold group. cbn [m_caps].
  rewrite Hraw, Hfence, Hcode. cbn [dedent_arg bind default].
  destruct (c 5) as [[? ?]|], (c 7) as [[? ?]|], (c 8) as [[? ?]|]; reflexivity.
Qed.

Lemma finditer_head r md m :
  re_match r md = Some m → ∃ ms, finditer r md = m :: ms.
Proof.
  intros H. unfold finditer, re_match in *.
  replace (String.length md + 2) with (S (String.length md + 1)) by lia.
  cbn [scan]. rewrite decide_False by lia. rewrite H. by eexists.
Qed.

(** X7. [from_str] and [grab_fences] agree: when [from_str] returns a
    record, it is the first record that [grab_fences] returns for the same
    text, field for field; and the only error that [from_str] raises is the
    [AttributeError] of a text that does not start with a block. *)
Theorem from_str_is_the_first_of_grab_fences (md : string) :
  match from_str md with
  | Ok f => ∃ fs, grab_fences md = Ok (f :: fs)
  | Raise e => e = AttributeError "'NoneType' object has no attribute 'groups'"
  end.
Proof.
  unfold from_str. destruct (re_match FENCED_BLOCK_RE md) as [m|] eqn:Hm; [|done].
  destruct (finditer_head _ _ _ Hm) as [ms Hms].
  apply match_at_sound in Hm as [Hi HM]. destruct m as [i j c].
  cbn [m_start m_end m_caps] in Hi, HM. subst i.
  rewrite (from_re_groups_groups md 0 j c HM).
  exists (map (fence_of_match md) ms). by rewrite grab_fences_eq, Hms.
Qed.

(** ** The executors and the loops over the blocks *)

Section DriverFacts.

Context (rt : runtime).

Lemma for_each_app (e : executor) (bs1 bs2 : list Fence) (w : world) :
  for_each rt e (bs1 ++ bs2) w
  = match for_each rt e bs1 w with
    | (w1, Ok _) => for_each rt e bs2 w1
    | (w1, Raise err) => (w1, Raise err)
    end.
Proof.
  revert w. induction bs1 as [|b bs1 IH]; intros w; simpl; [done|].
  destruct (call rt e (VFence b) w) as [w' [[]|err]]; [apply IH|done].
Qed.

(** X8. The checks stop at the first block that fails: when the blocks
    before [b] pass and the executor raises on [b], [check_raw_string]
    raises that error in the state that [b] left, and no block after [b] is
    executed, whatever it holds. *)
Theorem check_stops_at_the_first_failing_block
  (raw lang : string) (e : executor) (w w1 w2 : world)
  (bs1 bs2 : list Fence) (b : Fence) (err : exn) :
  _executors w !! lang = Some e →
  grab_fences raw = Ok (bs1 ++ b :: bs2) →
  for_each rt e bs1 w = (w1, Ok ()) →
  call rt e (VFence b) w1 = (w2, Raise err) →
  check_raw_string rt raw lang w = (w2, Raise err) ∧
  check_docstring rt (Some raw) lang w = (w2, Raise err) ∧
  check_md_file rt raw false lang w = (w2, Raise err).
Proof.
  intros Hreg Hg H1 Hb.
  assert (check_raw_string rt raw lang w = (w2, Raise err)) as H.
  { unfold check_raw_string, grab_code_blocks. rewrite Hreg, Hg, for_each_app, H1.
    simpl. by rewrite Hb. }
  done.
Qed.

(** X9. [register_executor] replaces what the tag had: after it the checks
    with that tag call the new executor on each block, in turn and until a
    call raises, a second registration under the same tag undoes the first,
    and the executors of the other tags stay. *)
Theorem register_executor_replaces (lang : string) (e e0 : executor) (w : world) (raw : string) :
  check_raw_string rt raw lang (register_executor lang e w)
  = for_each rt e (map (fence_of_match raw) (finditer FENCED_BLOCK_RE raw))
             (register_executor lang e w) ∧
  register_executor lang e (register_executor lang e0 w) = register_executor lang e w ∧
  (∀ lang', lang' ≠ lang →
     _executors (register_executor lang e w) !! lang' = _executors w !! lang') ∧
  dispatched rt e (map (fence_of_match raw) (finditer FENCED_BLOCK_RE raw))
    (register_executor lang e w)
    (check_raw_string rt raw lang (register_executor lang e w)).
Proof.
  assert (Hc : check_raw_string rt raw lang (register_executor lang e w)
               = for_each rt e (map (fence_of_match raw) (finditer FENCED_BLOCK_RE raw))
                          (register_executor lang e w)).
  { unfold check_raw_string, grab_code_blocks. rewrite grab_fences_eq.
    unfold register_executor at 1, set_executors at 1. cbn [_executors].
    by rewrite lookup_insert_eq. }
  split; [done|]. split; [|split].
  - unfold register_executor, set_executors. simpl. by rewrite insert_insert_eq.
  - intros lang' Hne. unfold register_executor, set_executors. simpl.
    by rewrite lookup_insert_ne.
  - rewrite Hc. apply for_each_dispatched.
Qed.

Lemma exec_in_default_globals_files (code : string) (w : world) :
  files (exec_in_default_globals rt code w).1 = files w ∧
  _executors (exec_in_default_globals rt code w).1 = _executors w.
Proof.
  unfold exec_in_default_globals.
  destruct (py_exec rt code (python_fence_globals w)) as [g [err|]]; done.
Qed.

(** X10. [exec_python_fence] on a block with a title option: the file is
    written before the code is executed, so it is there also when the code
    raises; and when the file cannot be opened the error of [open] is
    raised, the code is not executed and the state is as before. *)
Theorem exec_python_fence_writes_the_file_first
  (f : Fence) (w : world) (o : odict (option string)) (name : string) :
  options f = Some o → od_get "title" o = Some (Some name) → name ≠ ""%string →
  if openable rt name then
    exec_python_fence rt (VFence f) w
    = exec_in_default_globals rt (contents f) (write_file name (contents f) w) ∧
    files (exec_python_fence rt (VFence f) w).1 !! name = Some (contents f)
  else
    ∃ e, exec_python_fence rt (VFence f) w = (w, Raise e).
Proof.
  intros Ho Ht Hne.
  assert (Hfile : exec_file_fence rt (VFence f) w = open_write rt (Some name) (contents f) w).
  { unfold exec_file_fence. simpl. rewrite Ho. simpl. rewrite Ht. simpl.
    by rewrite bool_decide_eq_false_2 by done. }
  unfold exec_python_fence. simpl. rewrite Ho. simpl. rewrite Ht. simpl.
  rewrite bool_decide_eq_false_2 by done. simpl. rewrite Hfile.
  unfold open_write. rewrite decide_False by done.
  destruct (openable rt name); [|by eexists].
  split; [done|].
  destruct (exec_in_default_globals_files (contents f) (write_file name (contents f) w))
    as [-> _].
  apply lookup_insert_eq.
Qed.

(** X11. An attribute [title] without a value, as in the braces
    [{.python title}] or [{.python #title}], makes [exec_python_fence] try
    to write a file whose name is [None]: it raises the [TypeError] of
    [open], and the code of the block is not executed. *)
Theorem valueless_title_attribute_raises
  (f : Fence) (w : world) (o : odict (option string)) (a : odict Attr) (t : Attr) :
  options f = Some o → truthy (default None (od_get "title" o)) = false →
  attrs f = Some a → od_get "title" a = Some t → value t = None →
  exec_python_fence rt (VFence f) w
  = (w, Raise (TypeError "expected str, bytes or os.PathLike object, not NoneType")).
Proof.
  intros Ho Hf Ha Ht Hv.
  unfold exec_python_fence. simpl. rewrite Ho, Ha. simpl. rewrite Hf, Ht. simpl.
  unfold exec_file_fence. simpl. rewrite Ho, Ha. simpl. rewrite Hf, Ht. simpl.
  by rewrite Hv.
Qed.

Lemma run_commands_Ok (cmds : list (string * string)) :
  run_commands rt cmds = Ok () ↔ Forall (command_passes rt) cmds.
Proof.
  induction cmds as [|[input output] cmds IH]; simpl.
  { split; [constructor|done]. }
  split.
  - intros H. destruct (sh rt input) as [out|] eqn:Hsh; [|done].
    case_decide; [|done]. constructor; [by exists out|by apply IH].
  - intros H. apply Forall_cons in H as [(out & Hsh & Hout) H]. simpl in *.
    rewrite Hsh. rewrite decide_True by done. by apply IH.
Qed.

Lemma run_commands_Raise (cmds : list (string * string)) (e : exn) :
  run_commands rt cmds = Raise e →
  ∃ cs1 c cs2, cmds = cs1 ++ c :: cs2 ∧ Forall (command_passes rt) cs1 ∧
    ((sh rt c.1 = None ∧ e = CalledProcessError c.1) ∨
     (∃ out, sh rt c.1 = Some out ∧ strip (chars out) ≠ strip (chars c.2) ∧
             e = AssertionError "")).
Proof.
  induction cmds as [|[input output] cmds IH]; simpl; [done|].
  intros H. destruct (sh rt input) as [out|] eqn:Hsh.
  - destruct (decide (strip (chars out) = strip (chars output))) as [Heq|Hne].
    + destruct (IH H) as (cs1 & c & cs2 & -> & Hf & Hc).
      exists ((input, output) :: cs1), c, cs2. split; [done|]. split; [|done].
      constructor; [by exists out|done].
    + exists [], (input, output), cmds. split; [done|]. split; [constructor|].
      right. exists out. simpl. by simplify_eq.
  - exists [], (input, output), cmds. split; [done|]. split; [constructor|].
    left. simpl. by simplify_eq.
Qed.

(** X12. [exec_bash_fence] leaves the state as it is, and passes exactly
    when every command of the block exits with 0 and prints the expected
    output, up to the white space around it. Otherwise the error is the one
    of the first command that does not pass, the commands before it having
    passed: [CalledProcessError] when it does not exit with 0,
    [AssertionError] when its output differs. *)
Theorem exec_bash_fence_passes_iff (f : Fence) (w : world) :
  (exec_bash_fence rt (VFence f) w).1 = w ∧
  match (exec_bash_fence rt (VFence f) w).2 with
  | Ok _ => Forall (command_passes rt) (bash_commands (contents f))
  | Raise e =>
      ¬ Forall (command_passes rt) (bash_commands (contents f)) ∧
      ∃ cs1 c cs2, bash_commands (contents f) = cs1 ++ c :: cs2 ∧
        Forall (command_passes rt) cs1 ∧
        ((sh rt c.1 = None ∧ e = CalledProcessError c.1) ∨
         (∃ out, sh rt c.1 = Some out ∧ strip (chars out) ≠ strip (chars c.2) ∧
                 e = AssertionError ""))
  end.
Proof.
  unfold exec_bash_fence. simpl. split; [done|].
  destruct (run_commands rt (bash_commands (contents f))) as [[]|e] eqn:H.
  - by apply run_commands_Ok.
  - split; [|by apply run_commands_Raise].
    intros Hall. apply run_commands_Ok in Hall. congruence.
Qed.

Lemma exec_python_frame (b : Fence) (w : world) :
  match py_exec rt (contents b) fresh_globals with
  | (_, None) => exec_python rt (VFence b) w = (w, Ok ())
  | (_, Some e) => exec_python rt (VFence b) w = (print (contents b) w, Raise e)
  end.
Proof.
  unfold exec_python, fresh_globals. simpl.
  by destruct (py_exec rt (contents b) _) as [g [e|]].
Qed.

(** X13. [exec_python] gives each block a namespace of its own: a run of
    blocks passes exactly when each block passes when executed alone in the
    namespace that holds [__MODULE__] only, and it leaves the registry, the
    namespace shared by [exec_python_fence] and the files as they were. *)
Theorem exec_python_blocks_are_independent (bs : list Fence) (w : world) :
  ((for_each rt ExecPython bs w).2 = Ok () ↔
   Forall (λ b, (py_exec rt (contents b) fresh_globals).2 = None) bs) ∧
  _executors (for_each rt ExecPython bs w).1 = _executors w ∧
  python_fence_globals (for_each rt ExecPython bs w).1 = python_fence_globals w ∧
  files (for_each rt ExecPython bs w).1 = files w.
Proof.
  revert w. induction bs as [|b bs IH]; intros w.
  { simpl. repeat split; constructor. }
  cbn [for_each call]. pose proof (exec_python_frame b w) as Hb.
  destruct (py_exec rt (contents b) fresh_globals) as [g [e|]] eqn:He; rewrite Hb.
  - simpl. repeat split; try done.
    intros H. apply Forall_cons in H as [H _]. by rewrite He in H.
  - destruct (IH w) as (Hiff & H1 & H2 & H3). repeat split; try done.
    + intros H. constructor; [by rewrite He|]. by apply Hiff.
    + intros H. apply Forall_cons in H as [_ H]. by apply Hiff.
Qed.

(** X14. An object without a docstring makes [check_docstring] raise
    [TypeError] when the tag is registered, while an empty docstring passes
    with nothing executed. *)
Theorem check_docstring_without_docstring (lang : string) (e : executor) (w : world) :
  _executors w !! lang = Some e →
  (∃ msg, check_docstring rt None lang w = (w, Raise (TypeError msg))) ∧
  check_docstring rt (Some ""%string) lang w = (w, Ok ()).
Proof.
  intros H. unfold check_docstring. rewrite H. simpl. split; [by eexists|done].
Qed.

(** X22. [exec_file_fence] writes one file or nothing: when it returns, it
    was given a [Fence] with a title that is not empty, taken from the
    options or else from the attributes, and the only change is that the
    file of that name holds the contents as they are; when it raises,
    nothing was written and the state is as before. *)
Theorem exec_file_fence_writes_one_file_or_nothing (x : pyobj) (w : world) :
  match exec_file_fence rt x w with
  | (w', Ok _) =>
      ∃ f o a name,
        x = VFence f ∧ options f = Some o ∧ name ≠ ""%string ∧ openable rt name = true ∧
        (od_get "title" o = Some (Some name) ∨
         (attrs f = Some a ∧ value <$> od_get "title" a = Some (Some name))) ∧
        w' = write_file name (contents f) w
  | (w', Raise _) => w' = w
  end.
Proof.
  destruct x as [f|s]; [|done].
  unfold exec_file_fence. cbn [options_get attrs_get get_contents].
  destruct (options f) as [o|] eqn:Ho; [|done].
  destruct (truthy (default None (od_get "title" o))) eqn:Ht.
  - destruct (od_get "title" o) as [[name|]|] eqn:Hget; try done.
    simpl. destruct (decide (name = ""%string)) as [->|Hne]; [done|].
    destruct (openable rt name) eqn:Hopen; [|done].
    exists f, o, [], name. repeat split; auto.
  - destruct (attrs f) as [a|] eqn:Ha; [|done]. cbn [bind].
    destruct (od_get "title" a) as [t|] eqn:Hget; [|done].
    destruct (value t) as [name|] eqn:Hv; [|done].
    simpl. destruct (decide (name = ""%string)) as [->|Hne]; [done|].
    destruct (openable rt name) eqn:Hopen; [|done].
    exists f, o, a, name. repeat split; auto. right. split; [done|].
    rewrite Hget. simpl. by rewrite Hv.
Qed.

End DriverFacts.

(** ** [check_codeblock], the first [grab_code_blocks] and [get_codeblock_members] *)

Lemma split_lines_nonempty (l : list ascii) : split_lines l ≠ [].
Proof.
  induction l as [|a l IH]; [done|]. cbn [split_lines].
  destruct (eqc "010" a); [done|]. by destruct (split_lines l).
Qed.

Lemma eqc_other (c a : ascii) : a ≠ c → eqc c a = false.
Proof. intros H. unfold eqc. by rewrite bool_decide_eq_false_2. Qed.

Lemma split_lines_line (line rest : list ascii) :
  "010"%char ∉ line →
  split_lines (line ++ "010"%char :: rest) = line :: split_lines rest.
Proof.
  induction line as [|a line IH]; intros Hno; [done|].
  apply not_elem_of_cons in Hno as [Hne Hno].
  cbn [app split_lines]. rewrite (eqc_other _ a) by congruence.
  by rewrite IH.
Qed.

Lemma split_lines_no_newline (line : list ascii) :
  "010"%char ∉ line → split_lines line = [line].
Proof.
  induction line as [|a line IH]; intros Hno; [done|].
  apply not_elem_of_cons in Hno as [Hne Hno].
  cbn [split_lines]. rewrite (eqc_other _ a) by congruence.
  by rewrite IH.
Qed.

(** Joining the lines of a text with newlines gives the text back. *)
Lemma join_split_lines (l : list ascii) : join_lines (split_lines l) = l.
Proof.
  induction l as [|a l IH]; [done|]. cbn [split_lines].
  destruct (eqc "010" a) eqn:Ha.
  - apply bool_decide_eq_true in Ha as ->.
    pose proof (split_lines_nonempty l) as Hne.
    destruct (split_lines l) as [|ln lns]; [done|]. simpl. by rewrite <-IH.
  - pose proof (split_lines_nonempty l) as Hne.
    destruct (split_lines l) as [|ln lns]; [done|].
    rewrite <-IH. by destruct lns.
Qed.

Lemma check_codeblock_lines (line rest : list ascii) (lang : option string) :
  "010"%char ∉ line →
  check_codeblock (text (line ++ "010"%char :: rest)) lang
  = if truthy lang && negb (bool_decide (Some (text (drop 3 line)) = lang))
    then ""%string else text rest.
Proof.
  intros Hno. unfold check_codeblock. rewrite !chars_text.
  rewrite (split_lines_line line rest) by done.
  cbn [head tail default]. by rewrite join_split_lines.
Qed.

(** X15. [check_codeblock] on a block whose first line is [line]: without a
    language, or with an empty one, it returns the text after the first
    line; with a language it returns that text when the first line, less its
    first three characters whatever they are, is the language, and the
    empty string otherwise. A block of one line gives the empty string. *)
Theorem check_codeblock_strips_the_first_line (line rest : list ascii) (lang : option string) :
  "010"%char ∉ line →
  check_codeblock (text (line ++ "010"%char :: rest)) lang
  = (if truthy lang && negb (bool_decide (Some (text (drop 3 line)) = lang))
     then ""%string else text rest) ∧
  check_codeblock (text line) lang = ""%string.
Proof.
  intros Hno. split; [by apply check_codeblock_lines|].
  unfold check_codeblock. rewrite !chars_text.
  rewrite (split_lines_no_newline line) by done.
  cbn [head tail default join_lines]. by destruct (_ && _).
Qed.

Lemma split_lines_no_nl (l : list ascii) : Forall (λ ln, "010"%char ∉ ln) (split_lines l).
Proof.
  induction l as [|a l IH]; cbn [split_lines].
  { constructor; [|constructor]. by intros H%elem_of_nil. }
  destruct (eqc "010" a) eqn:Ha.
  - constructor; [|done]. by intros H%elem_of_nil.
  - destruct (split_lines l) as [|ln lns]; [repeat constructor|].
    + intros H. apply list_elem_of_singleton in H. subst. by vm_compute in Ha.
    + apply Forall_cons in IH as [H1 H2]. constructor; [|done].
      intros H. apply elem_of_cons in H as [Heq|H]; [|done].
      subst. by vm_compute in Ha.
Qed.

Lemma starts_with_app (p l : list ascii) : starts_with p (p ++ l) = true.
Proof.
  induction p as [|a p IH]; [by destruct l|]. cbn [app starts_with].
  by rewrite bool_decide_eq_true_2, IH.
Qed.

Lemma lines_with_newlines (body : list (list ascii)) :
  body ≠ [] →
  concat (map (λ ln, ln ++ ["010"%char]) body) = join_lines body ++ ["010"%char].
Proof.
  induction body as [|ln body IH]; [done|]. intros _.
  destruct body as [|ln' body]; [cbn [map concat join_lines]; by rewrite app_nil_r|].
  cbn [map concat join_lines] in *. rewrite IH by done.
  by rewrite <-!app_assoc.
Qed.

Lemma first_loop_outside (lang : option string) (lines : list (list ascii)) (st : First.loop_state) :
  First.in_block st = false →
  Forall (λ ln, starts_with (chars "```") ln = false) lines →
  fold_left (First.step lang) lines st = st.
Proof.
  intros Hout Hl. induction Hl as [|ln lines Hln Hl IH]; [done|].
  cbn [fold_left]. unfold First.step at 2. by rewrite Hln, Hout.
Qed.

Lemma first_loop_inside (lang : option string) (lines : list (list ascii)) : ∀ b cbs,
  Forall (λ ln, starts_with (chars "```") ln = false) lines →
  fold_left (First.step lang) lines (First.mkLoop true (text b) cbs)
  = First.mkLoop true (text (b ++ concat (map (λ ln, ln ++ ["010"%char]) lines))) cbs.
Proof.
  induction lines as [|ln lines IH]; intros b cbs Hl.
  { simpl. by rewrite app_nil_r. }
  apply Forall_cons in Hl as [Hln Hl].
  cbn [fold_left map concat]. unfold First.step at 2. rewrite Hln.
  cbn [First.in_block First.block First.codeblocks].
  change (String "010" "") with (text ["010"%char]).
  rewrite <-!text_app, IH by done. by rewrite <-!app_assoc.
Qed.

(** X18. The first [grab_code_blocks] of the module, the one with a
    [lang] parameter, on a docstring with one block: the block is returned
    without its opening and closing lines, each line of its body followed
    by a newline, when the text after the three backticks of the opening
    line is the language, or when no language is asked for; a block with
    another tag, and a block without a body, are left out. *)
Theorem first_grab_code_blocks_one_block
  (docstring : string) (lang : option string)
  (pre body post : list (list ascii)) (tag close : list ascii) :
  split_lines (chars (dedent docstring))
  = pre ++ (chars "```" ++ tag) :: body ++ close :: post →
  Forall (λ ln, starts_with (chars "```") ln = false) pre →
  Forall (λ ln, starts_with (chars "```") ln = false) body →
  starts_with (chars "```") close = true →
  Forall (λ ln, starts_with (chars "```") ln = false) post →
  First.grab_code_blocks docstring lang
  = if truthy lang && negb (bool_decide (Some (text tag) = lang)) then []
    else if decide (body = []) then []
         else [text (join_lines body ++ ["010"%char])].
Proof.
  intros Hlines Hpre Hbody Hclose Hpost.
  assert (Htag : "010"%char ∉ chars "```" ++ tag).
  { pose proof (split_lines_no_nl (chars (dedent docstring))) as Hnl.
    rewrite Hlines in Hnl. apply Forall_app in Hnl as [_ Hnl].
    by apply Forall_cons in Hnl as [Hnl _]. }
  unfold First.grab_code_blocks. rewrite Hlines.
  rewrite fold_left_app, (first_loop_outside lang pre) by done.
  cbn [fold_left]. unfold First.step at 2. rewrite starts_with_app.
  cbn [First.in_block First.block First.codeblocks negb].
  change (""%string +:+ text (chars "```" ++ tag) +:+ String "010" "")
    with (text (chars "```" ++ tag) +:+ text ["010"%char]).
  rewrite <-text_app, fold_left_app, (first_loop_inside lang body) by done.
  cbn [fold_left]. unfold First.step at 2. rewrite Hclose.
  cbn [First.in_block First.block First.codeblocks negb app].
  rewrite (first_loop_outside lang post) by done. cbn [First.codeblocks].
  rewrite <-app_assoc. cbn [app].
  rewrite check_codeblock_lines by done.
  change (drop 3 (chars "```" ++ tag)) with tag.
  destruct (truthy lang && negb (bool_decide (Some (text tag) = lang))); [done|].
  destruct (decide (body = [])) as [->|Hne]; [done|].
  rewrite lines_with_newlines by done.
  rewrite filter_cons_True; [done|].
  intros H. apply (f_equal chars) in H. rewrite chars_text in H.
  by destruct (join_lines body).
Qed.

Section MemberFacts.

Context {obj : Type} (doc_of : obj → option string) (getmembers : obj → list (string * obj)).

Lemma documented_truthy (x m : obj) : m ∈ documented doc_of x → truthy (doc_of m) = true.
Proof.
  unfold documented. destruct (truthy (doc_of x)) eqn:E; intros H.
  - apply list_elem_of_singleton in H. by subst.
  - by apply elem_of_nil in H.
Qed.

Lemma candidates_truthy (classes : list obj) :
  Forall (λ m, truthy (doc_of m) = true) (candidates doc_of getmembers classes).
Proof.
  apply Forall_forall. intros m Hm. unfold candidates in Hm.
  apply list_elem_of_In, in_flat_map in Hm as (cl & _ & Hm).
  apply in_app_or in Hm as [Hm|Hm].
  - apply list_elem_of_In in Hm. by eapply documented_truthy.
  - apply in_flat_map in Hm as (nm & _ & Hm).
    apply list_elem_of_In in Hm. by eapply documented_truthy.
Qed.

Lemma has_code_blocks_has_fence (m : obj) :
  truthy (doc_of m) = true → has_code_blocks doc_of m = Ok (has_fence doc_of m).
Proof.
  unfold has_code_blocks, has_fence. destruct (doc_of m) as [d|]; [intros _|done].
  unfold grab_code_blocks. rewrite grab_fences_eq. cbn [bind]. rewrite length_map.
  f_equal. apply bool_decide_ext.
  destruct (finditer FENCED_BLOCK_RE d) as [|x xs]; simpl; split; intros H; (done || lia).
Qed.

Lemma keep_if_filter (l : list obj) :
  Forall (λ m, truthy (doc_of m) = true) l →
  keep_if (has_code_blocks doc_of) l = Ok (filter (λ m, has_fence doc_of m = true) l).
Proof.
  induction 1 as [|m l Hm Hl IH]; [done|].
  cbn [keep_if]. rewrite IH, has_code_blocks_has_fence by done. cbn [bind].
  rewrite filter_cons. destruct (has_fence doc_of m) eqn:E.
  - by rewrite decide_True.
  - by rewrite decide_False.
Qed.

(** X16. [get_codeblock_members] raises nothing. It returns, in order and
    with repetitions, the objects passed and their direct members, not the
    members of members, that have a docstring that is not empty and holds at
    least one fenced block, whatever the language of the block. *)
Theorem get_codeblock_members_keeps_fenced_docstrings (classes : list obj) :
  get_codeblock_members doc_of getmembers classes
  = Ok (filter (λ m, has_fence doc_of m = true) (candidates doc_of getmembers classes)) ∧
  Forall (λ m, truthy (doc_of m) = true) (candidates doc_of getmembers classes) ∧
  candidates doc_of getmembers classes
  = flat_map (λ cl, filter (λ m, truthy (doc_of m) = true) (cl :: map snd (getmembers cl)))
             classes.
Proof.
  split; [apply keep_if_filter, candidates_truthy|]. split; [apply candidates_truthy|].
  unfold candidates. induction classes as [|cl classes IH]; [done|].
  cbn [flat_map]. rewrite IH. f_equal.
  rewrite filter_cons. unfold documented at 1.
  assert (Hm : ∀ l : list (string * obj),
            flat_map (λ nm, documented doc_of nm.2) l
            = filter (λ m, truthy (doc_of m) = true) (map snd l)).
  { induction l as [|nm l IHl]; [done|]. cbn [flat_map map]. rewrite IHl, filter_cons.
    unfold documented. destruct (truthy (doc_of nm.2)) eqn:E.
    - by rewrite decide_True.
    - by rewrite decide_False by congruence. }
  rewrite Hm. destruct (truthy (doc_of cl)) eqn:E.
  - by rewrite decide_True.
  - by rewrite decide_False by congruence.
Qed.

End MemberFacts.

(** ** The commands of a bash block *)

Lemma prompt_here (a b : ascii) (l : list ascii) :
  starts_with (chars "$ ") (a :: b :: l) = eqc "$" a && eqc " " b.
Proof.
  cbn [chars String.list_ascii_of_string starts_with]. unfold eqc.
  rewrite andb_true_r.
  f_equal; apply bool_decide_ext; split; congruence.
Qed.

Lemma split_prompt_chunk (chunk rest : list ascii) :
  occurs_in (chars "$ ") chunk = false →
  split_prompt (chunk ++ "$"%char :: " "%char :: rest) = chunk :: split_prompt rest.
Proof.
  induction chunk as [|a chunk IH]; intros Hno; [done|].
  cbn [occurs_in] in Hno. apply orb_false_elim in Hno as [Hhere Hno].
  specialize (IH Hno).
  destruct chunk as [|b chunk].
  - cbn [app split_prompt]. replace (eqc " " "$") with false by done.
    rewrite andb_false_r. done.
  - rewrite prompt_here in Hhere.
    change (split_prompt ((a :: b :: chunk) ++ "$"%char :: " "%char :: rest))
      with (if eqc "$" a && eqc " " b
            then [] :: split_prompt (chunk ++ "$"%char :: " "%char :: rest)
            else cons_head a (split_prompt ((b :: chunk) ++ "$"%char :: " "%char :: rest))).
    by rewrite Hhere, IH.
Qed.

Lemma split_prompt_last (chunk : list ascii) :
  occurs_in (chars "$ ") chunk = false → split_prompt chunk = [chunk].
Proof.
  induction chunk as [|a chunk IH]; intros Hno; [done|].
  cbn [occurs_in] in Hno. apply orb_false_elim in Hno as [Hhere Hno].
  specialize (IH Hno).
  destruct chunk as [|b chunk]; [done|].
  rewrite prompt_here in Hhere.
  change (split_prompt (a :: b :: chunk))
    with (if eqc "$" a && eqc " " b then [] :: split_prompt chunk
          else cons_head a (split_prompt (b :: chunk))).
  by rewrite Hhere, IH.
Qed.

Lemma split_prompt_transcript (entries : list (list ascii * list ascii)) : ∀ pre,
  occurs_in (chars "$ ") pre = false →
  forallb entry_ok entries = true →
  split_prompt (pre ++ transcript entries)
  = pre :: map (λ e, e.1 ++ "010"%char :: e.2) entries.
Proof.
  induction entries as [|e entries IH]; intros pre Hpre Hok.
  { simpl. rewrite app_nil_r. by apply split_prompt_last. }
  cbn [forallb] in Hok. apply andb_true_iff in Hok as [He Hok].
  unfold entry_ok in He. apply andb_true_iff in He as [_ He].
  apply negb_true_iff in He.
  cbn [transcript flat_map map].
  change ("$"%char :: " "%char :: e.1 ++ "010"%char :: e.2)
    with (["$"%char; " "%char] ++ (e.1 ++ "010"%char :: e.2)).
  rewrite <-(app_assoc _ _ (flat_map _ entries)).
  cbn [app]. rewrite split_prompt_chunk by done.
  f_equal. by apply IH.
Qed.

Lemma splitlines_nonempty (l : list ascii) : l ≠ [] → splitlines l ≠ [].
Proof.
  destruct l as [|a l]; [done|]. intros _. cbn [splitlines].
  destruct (line_break a); [done|].
  destruct l as [|b l]; [done|]. by destruct (splitlines (b :: l)).
Qed.

Lemma splitlines_command (cmd out : list ascii) :
  forallb (λ a, negb (line_break a)) cmd = true →
  splitlines (cmd ++ "010"%char :: out) = cmd :: splitlines out.
Proof.
  induction cmd as [|a cmd IH]; intros Hcmd.
  - cbn [app splitlines]. replace (line_break "010") with true by done.
    destruct out as [|b out]; [done|].
    by replace (eqc "013" "010") with false by done.
  - cbn [forallb] in Hcmd. apply andb_true_iff in Hcmd as [Ha Hcmd].
    apply negb_true_iff in Ha. specialize (IH Hcmd).
    change (splitlines ((a :: cmd) ++ "010"%char :: out))
      with (if line_break a then
              [] :: (match cmd ++ "010"%char :: out with
                     | b :: l'' => if eqc "013" a && eqc "010" b then splitlines l''
                                   else splitlines (cmd ++ "010"%char :: out)
                     | [] => []
                     end)
            else match cmd ++ "010"%char :: out with
                 | [] => [[a]]
                 | _ :: _ => cons_head a (splitlines (cmd ++ "010"%char :: out))
                 end).
    rewrite Ha, IH. by destruct cmd.
Qed.

(** X17. The commands that [exec_bash_fence] takes from a transcript: each
    prompt starts a command, whose first line is run and whose other lines
    are the expected output; and text before the first prompt is taken as
    a command as well, its first line being run. *)
Theorem bash_commands_of_a_transcript
  (pre : list ascii) (entries : list (list ascii * list ascii)) :
  occurs_in (chars "$ ") pre = false →
  forallb entry_ok entries = true →
  bash_commands (text (pre ++ transcript entries))
  = (if decide (pre = []) then [] else [command_of pre]) ++
    map (λ e, (text e.1, text (join_lines (splitlines e.2)))) entries.
Proof.
  intros Hpre Hok. unfold bash_commands. rewrite chars_text.
  rewrite split_prompt_transcript by done.
  rewrite filter_cons.
  assert (Hrest :
    omap (λ cmd, match splitlines cmd with
                 | first :: others => Some (text first, text (join_lines others))
                 | [] => None
                 end)
         (filter (λ cmd, cmd ≠ []) (map (λ e, e.1 ++ "010"%char :: e.2) entries))
    = map (λ e, (text e.1, text (join_lines (splitlines e.2)))) entries).
  { clear Hpre. induction entries as [|e entries IH]; [done|].
    cbn [forallb] in Hok. apply andb_true_iff in Hok as [He Hok].
    unfold entry_ok in He. apply andb_true_iff in He as [He _].
    cbn [map]. rewrite filter_cons_True by (by destruct (e.1)).
    cbn [omap list_omap]. rewrite splitlines_command by done.
    by rewrite <-(IH Hok). }
  destruct (decide (pre = [])) as [->|Hne].
  - rewrite decide_False by auto. by rewrite Hrest.
  - rewrite decide_True by done. cbn [omap list_omap]. rewrite Hrest.
    unfold command_of. pose proof (splitlines_nonempty pre Hne).
    by destruct (splitlines pre).
Qed.

(** ** The further properties at work on small documents *)

Lemma no_marker_line_no_fence_witness :
  has_marker_line (chars unterminated) = false ∧
  _executors module_init !! "python"%string = Some ExecPythonFence ∧
  grab_fences unterminated = Ok [] ∧
  check_raw_string demo unterminated "python" module_init = (module_init, Ok ()) ∧
  check_docstring demo (Some unterminated) "python" module_init = (module_init, Ok ()).
Proof.
  assert (H1 : has_marker_line (chars unterminated) = false) by (vm_compute; reflexivity).
  assert (H2 : _executors module_init !! "python"%string = Some ExecPythonFence)
    by (vm_compute; reflexivity).
  split; [exact H1|]. split; [exact H2|].
  exact (no_marker_line_no_fence demo unterminated "python" ExecPythonFence module_init H1 H2).
Defined.

(** The block that reads [x] comes first and fails: the block that binds
    [x] is not executed. *)
Lemma check_stops_at_the_first_failing_block_witness :
  _executors module_init !! "python"%string = Some ExecPythonFence ∧
  grab_fences y_then_x = Ok ([] ++ block_y :: [block_x]) ∧
  for_each demo ExecPythonFence [] module_init = (module_init, Ok ()) ∧
  call demo ExecPythonFence (VFence block_y) module_init
  = (print ("y = x" +:+ nl) module_init,
     Raise (Raised "NameError" "name 'x' is not defined")) ∧
  check_raw_string demo y_then_x "python" module_init
  = (print ("y = x" +:+ nl) module_init,
     Raise (Raised "NameError" "name 'x' is not defined")) ∧
  check_docstring demo (Some y_then_x) "python" module_init
  = (print ("y = x" +:+ nl) module_init,
     Raise (Raised "NameError" "name 'x' is not defined")) ∧
  check_md_file demo y_then_x false "python" module_init
  = (print ("y = x" +:+ nl) module_init,
     Raise (Raised "NameError" "name 'x' is not defined")).
Proof.
  assert (H1 : _executors module_init !! "python"%string = Some ExecPythonFence)
    by (vm_compute; reflexivity).
  assert (H2 : grab_fences y_then_x = Ok ([] ++ block_y :: [block_x]))
    by (vm_compute; reflexivity).
  assert (H3 : for_each demo ExecPythonFence [] module_init = (module_init, Ok ()))
    by reflexivity.
  assert (H4 : call demo ExecPythonFence (VFence block_y) module_init
               = (print ("y = x" +:+ nl) module_init,
                  Raise (Raised "NameError" "name 'x' is not defined")))
    by (vm_compute; reflexivity).
  split; [exact H1|]. split; [exact H2|]. split; [exact H3|]. split; [exact H4|].
  exact (check_stops_at_the_first_failing_block demo y_then_x "python" ExecPythonFence
           module_init module_init _ [] [block_x] block_y _ H1 H2 H3 H4).
Defined.

(** The file of a titled python block is written although its code
    raises. *)
Lemma exec_python_fence_writes_the_file_first_witness :
  options python_titled = Some [("title"%string, Some "a.py"%string)] ∧
  od_get "title" [("title"%string, Some "a.py"%string)] = Some (Some "a.py"%string) ∧
  "a.py"%string ≠ ""%string ∧
  if openable demo "a.py" then
    exec_python_fence demo (VFence python_titled) module_init
    = exec_in_default_globals demo (contents python_titled)
        (write_file "a.py" (contents python_titled) module_init) ∧
    files (exec_python_fence demo (VFence python_titled) module_init).1 !! "a.py"%string
    = Some (contents python_titled)
  else
    ∃ e, exec_python_fence demo (VFence python_titled) module_init = (module_init, Raise e).
Proof.
  assert (H1 : options python_titled = Some [("title"%string, Some "a.py"%string)])
    by reflexivity.
  assert (H2 : od_get "title" [("title"%string, Some "a.py"%string)]
               = Some (Some "a.py"%string)) by reflexivity.
  assert (H3 : "a.py"%string ≠ ""%string) by done.
  split; [exact H1|]. split; [exact H2|]. split; [exact H3|].
  exact (exec_python_fence_writes_the_file_first demo python_titled module_init _ _ H1 H2 H3).
Defined.

Lemma titled_python_block_fails_after_writing :
  from_str ("```python title='a.py'" +:+ nl +:+ "y = x" +:+ nl +:+ "```") = Ok python_titled ∧
  ∃ w, exec_python_fence demo (VFence python_titled) module_init
       = (w, Raise (Raised "NameError" "name 'x' is not defined")) ∧
       files w !! "a.py"%string = Some ("y = x" +:+ nl).
Proof.
  split; [vm_compute; reflexivity|].
  eexists. split; [vm_compute; reflexivity|]. by vm_compute.
Qed.

(** The braces [{.python title}] give a python block with an attribute
    [title] that has no value. *)
Lemma valueless_title_attribute_raises_witness :
  from_str ("```{.python title}" +:+ nl +:+ "x = 1" +:+ nl +:+ "```") = Ok valueless_title ∧
  options valueless_title = Some [] ∧
  truthy (default None (od_get "title" ([] : odict (option string)))) = false ∧
  attrs valueless_title
  = Some [("python"%string, mkAttr None "class"); ("title"%string, mkAttr None "keyval")] ∧
  od_get "title" [("python"%string, mkAttr None "class"); ("title"%string, mkAttr None "keyval")]
  = Some (mkAttr None "keyval") ∧
  value (mkAttr None "keyval") = None ∧
  exec_python_fence demo (VFence valueless_title) module_init
  = (module_init,
     Raise (TypeError "expected str, bytes or os.PathLike object, not NoneType")).
Proof.
  split; [vm_compute; reflexivity|].
  assert (H1 : options valueless_title = Some []) by reflexivity.
  assert (H2 : truthy (default None (od_get "title" ([] : odict (option string)))) = false)
    by reflexivity.
  assert (H3 : attrs valueless_title
               = Some [("python"%string, mkAttr None "class");
                       ("title"%string, mkAttr None "keyval")]) by reflexivity.
  assert (H4 : od_get "title" [("python"%string, mkAttr None "class");
                               ("title"%string, mkAttr None "keyval")]
               = Some (mkAttr None "keyval")) by reflexivity.
  assert (H5 : value (mkAttr None "keyval") = None) by reflexivity.
  split; [exact H1|]. split; [exact H2|]. split; [exact H3|]. split; [exact H4|].
  split; [exact H5|].
  exact (valueless_title_attribute_raises demo valueless_title module_init _ _ _
           H1 H2 H3 H4 H5).
Defined.

Lemma check_docstring_without_docstring_witness :
  _executors module_init !! "python"%string = Some ExecPythonFence ∧
  (∃ msg, check_docstring demo None "python" module_init = (module_init, Raise (TypeError msg))) ∧
  check_docstring demo (Some ""%string) "python" module_init = (module_init, Ok ()).
Proof.
  assert (H1 : _executors module_init !! "python"%string = Some ExecPythonFence)
    by (vm_compute; reflexivity).
  split; [exact H1|].
  exact (check_docstring_without_docstring demo "python" ExecPythonFence module_init H1).
Defined.

Lemma check_codeblock_strips_the_first_line_witness :
  ("010"%char ∉ chars "```python") ∧
  check_codeblock (text (chars "```python" ++ "010"%char :: chars ("x = 1" +:+ nl)))
                  (Some "python"%string)
  = (if truthy (Some "python"%string) &&
        negb (bool_decide (Some (text (drop 3 (chars "```python"))) = Some "python"%string))
     then ""%string else text (chars ("x = 1" +:+ nl))) ∧
  check_codeblock (text (chars "```python")) (Some "python"%string) = ""%string.
Proof.
  assert (H1 : "010"%char ∉ chars "```python").
  { apply (bool_decide_unpack _). vm_compute. exact I. }
  split; [exact H1|].
  exact (check_codeblock_strips_the_first_line (chars "```python") (chars ("x = 1" +:+ nl))
           (Some "python"%string) H1).
Defined.

Lemma check_codeblock_on_a_python_block :
  check_codeblock ("```python" +:+ nl +:+ "x = 1" +:+ nl) (Some "python"%string)
  = "x = 1" +:+ nl ∧
  check_codeblock ("```python" +:+ nl +:+ "x = 1" +:+ nl) (Some "bash"%string) = ""%string ∧
  check_codeblock ("```python" +:+ nl +:+ "x = 1" +:+ nl) None = "x = 1" +:+ nl.
Proof. repeat split; vm_compute; reflexivity. Qed.

Lemma bash_commands_of_a_transcript_witness :
  occurs_in (chars "$ ") (chars "# setup") = false ∧
  forallb entry_ok [(chars "echo hi", chars ("hi" +:+ nl)); (chars "true", [])] = true ∧
  bash_commands
    (text (chars "# setup" ++
           transcript [(chars "echo hi", chars ("hi" +:+ nl)); (chars "true", [])]))
  = (if decide (chars "# setup" = []) then [] else [command_of (chars "# setup")]) ++
    map (λ e, (text e.1, text (join_lines (splitlines e.2))))
        [(chars "echo hi", chars ("hi" +:+ nl)); (chars "true", [])].
Proof.
  assert (H1 : occurs_in (chars "$ ") (chars "# setup") = false) by (vm_compute; reflexivity).
  assert (H2 : forallb entry_ok [(chars "echo hi", chars ("hi" +:+ nl)); (chars "true", [])]
               = true) by (vm_compute; reflexivity).
  split; [exact H1|]. split; [exact H2|].
  exact (bash_commands_of_a_transcript (chars "# setup") _ H1 H2).
Defined.

Lemma bash_commands_with_text_before_the_prompt :
  bash_commands ("# setup$ echo hi" +:+ nl +:+ "hi" +:+ nl +:+ "$ true" +:+ nl)
  = [("# setup"%string, ""%string); ("echo hi"%string, "hi"%string);
     ("true"%string, ""%string)].
Proof. vm_compute. reflexivity. Qed.

Lemma first_grab_code_blocks_one_block_witness :
  split_lines (chars (dedent docstring_with_block))
  = [chars "Example:"; []] ++ (chars "```" ++ chars "python") :: [chars "x = 1"] ++
    chars "```" :: [[]] ∧
  Forall (λ ln, starts_with (chars "```") ln = false) [chars "Example:"; []] ∧
  Forall (λ ln, starts_with (chars "```") ln = false) [chars "x = 1"] ∧
  starts_with (chars "```") (chars "```") = true ∧
  Forall (λ ln, starts_with (chars "```") ln = false) [[] : list ascii] ∧
  First.grab_code_blocks docstring_with_block (Some "python"%string)
  = if truthy (Some "python"%string) &&
       negb (bool_decide (Some (text (chars "python")) = Some "python"%string))
    then []
    else if decide ([chars "x = 1"] = []) then []
         else [text (join_lines [chars "x = 1"] ++ ["010"%char])].
Proof.
  assert (H1 : split_lines (chars (dedent docstring_with_block))
               = [chars "Example:"; []] ++ (chars "```" ++ chars "python") ::
                 [chars "x = 1"] ++ chars "```" :: [[]]) by (vm_compute; reflexivity).
  assert (H2 : Forall (λ ln, starts_with (chars "```") ln = false) [chars "Example:"; []])
    by (repeat constructor).
  assert (H3 : Forall (λ ln, starts_with (chars "```") ln = false) [chars "x = 1"])
    by (repeat constructor).
  assert (H4 : starts_with (chars "```") (chars "```") = true) by reflexivity.
  assert (H5 : Forall (λ ln, starts_with (chars "```") ln = false) [[] : list ascii])
    by (repeat constructor).
  split; [exact H1|]. split; [exact H2|]. split; [exact H3|]. split; [exact H4|].
  split; [exact H5|].
  exact (first_grab_code_blocks_one_block docstring_with_block (Some "python"%string)
           _ _ _ _ _ H1 H2 H3 H4 H5).
Defined.

Lemma first_grab_code_blocks_on_a_docstring :
  First.grab_code_blocks docstring_with_block (Some "python"%string) = ["x = 1" +:+ nl] ∧
  First.grab_code_blocks docstring_with_block (Some "bash"%string) = [] ∧
  First.grab_code_blocks docstring_with_block None = ["x = 1" +:+ nl].
Proof. repeat split; vm_compute; reflexivity. Qed.

Lemma exact_closing_line_closes_witness :
  ("`"%char = "`"%char ∨ "`"%char = "~"%char) ∧ 3 ≤ 3 ∧
  (chars ("x = 1" +:+ nl) = [] ∨ last (chars ("x = 1" +:+ nl)) = Some "010"%char) ∧
  (chars (nl +:+ "more") = [] ∨ head (chars (nl +:+ "more")) = Some "010"%char) ∧
  (∃ f, from_str (text (fenced_text "`" 3 1 (chars ("x = 1" +:+ nl)) (chars (nl +:+ "more"))))
        = Ok f ∧ fence f = Some (text (replicate 3 "`"%char))) ∧
  (∃ f fs,
     grab_fences (text (fenced_text "`" 3 1 (chars ("x = 1" +:+ nl)) (chars (nl +:+ "more"))))
     = Ok (f :: fs) ∧ fence f = Some (text (replicate 3 "`"%char))).
Proof.
  assert (H1 : "`"%char = "`"%char ∨ "`"%char = "~"%char) by (left; reflexivity).
  assert (H2 : 3 ≤ 3) by lia.
  assert (H3 : chars ("x = 1" +:+ nl) = [] ∨ last (chars ("x = 1" +:+ nl)) = Some "010"%char)
    by (right; reflexivity).
  assert (H4 : chars (nl +:+ "more") = [] ∨ head (chars (nl +:+ "more")) = Some "010"%char)
    by (right; reflexivity).
  split; [exact H1|]. split; [exact H2|]. split; [exact H3|]. split; [exact H4|].
  exact (exact_closing_line_closes "`" 3 1 _ _ H1 H2 H3 H4).
Defined.

Lemma from_str_raises_after_other_text_witness :
  "a"%char ≠ "`"%char ∧ "a"%char ≠ "~"%char ∧
  from_str (String "a" nl +:+ block_x_doc)
  = Raise (AttributeError "'NoneType' object has no attribute 'groups'").
Proof.
  assert (H1 : "a"%char ≠ "`"%char) by done.
  assert (H2 : "a"%char ≠ "~"%char) by done.
  split; [exact H1|]. split; [exact H2|].
  exact (from_str_raises_after_other_text "a" nl block_x_doc H1 H2).
Defined.

(** A document with three kinds of header: no attribute with options, and
    no option with attributes. *)
Lemma braces_or_options_on_two_blocks :
  ∃ f1 f2,
    grab_fences ("```python title='a.py'" +:+ nl +:+ "```" +:+ nl +:+
                 "```{.python #main}" +:+ nl +:+ "```" +:+ nl) = Ok [f1; f2] ∧
    attrs f1 = Some [] ∧ options f1 = Some [("title"%string, Some "a.py"%string)] ∧
    attrs f2 = Some [("python"%string, mkAttr None "class"); ("main"%string, mkAttr None "id")] ∧
    options f2 = Some [] ∧ lang f2 = Some "python"%string.
Proof. eexists _, _. split; [vm_compute; reflexivity|]. by repeat split. Qed.

Lemma repeated_option_key :
  options_from_str (Some "a='1' b a='2'"%string)
  = [("a"%string, Some "2"%string); ("b"%string, None)].
Proof. vm_compute. reflexivity. Qed.

Lemma header_parsers_stop_at_other_text_witness :
  blank "1" = false ∧ alpha "1" = false ∧ "1"%char ≠ "."%char ∧ "1"%char ≠ "#"%char ∧
  options_from_str (Some (String "1" "a .python")) = [] ∧
  attrs_from_str (Some (String "1" "a .python")) = [].
Proof.
  assert (H1 : blank "1" = false) by reflexivity.
  assert (H2 : alpha "1" = false) by reflexivity.
  assert (H3 : "1"%char ≠ "."%char) by done.
  assert (H4 : "1"%char ≠ "#"%char) by done.
  split; [exact H1|]. split; [exact H2|]. split; [exact H3|]. split; [exact H4|].
  split.
  - exact (proj1 (header_parsers_stop_at_other_text "1" "a .python" H1 H2)).
  - exact (proj2 (header_parsers_stop_at_other_text "1" "a .python" H1 H2) H3 H4).
Defined.

(** ** The line that closes a block is the first that holds its marker *)








(** *** Lines *)







(** *** A document with a block *)















(** The same document, computed: one block, which ends at the first line
    of three backticks; the line of four and the later line of three do
    not end it. *)
Lemma block_ends_at_the_first_closing_line :
  ∃ f,
    grab_fences ("Some text" +:+ nl +:+ nl +:+
                 "```" +:+ nl +:+ "x = 1" +:+ nl +:+ "````" +:+ nl +:+ "```python" +:+ nl +:+
                 "``` " +:+ nl +:+ "```" +:+ nl) = Ok [f] ∧
    contents f = "x = 1" +:+ nl +:+ "````" +:+ nl +:+ "```python" +:+ nl ∧
    raw f = Some ("```" +:+ nl +:+ "x = 1" +:+ nl +:+ "````" +:+ nl +:+ "```python" +:+ nl +:+
                  "``` ").
Proof. eexists. split; [vm_compute; reflexivity|]. split; reflexivity. Qed.
